(** * FaceMeshView: alignment evaluator, engagement state machine, frame
    driver and capture pipeline.

    Shallow embedding of [FaceMeshView] (the React component holding the
    face-tracking logic).  JavaScript numbers are IEEE 754 binary64 values,
    so landmark coordinates, thresholds and timestamps are Rocq's primitive
    floats; the frame counters are JavaScript numbers that only ever hold
    small non-negative integers and are modelled by [Z].  The [useRef] cells
    of the component become the fields of one record that every operation
    takes and returns. *)

From Stdlib Require Import Ascii String.
From Stdlib Require Import ZArith QArith List Bool Lia Floats.
From Stdlib Require Import Permutation DecimalString.
Import ListNotations.

Set Warnings "-inexact-float".

Local Open Scope float_scope.

(** ** JavaScript number helpers *)

Module JsNumber.

(** [true] on the negative zero only. *)
Definition isNegZero (a : float) : bool :=
  match classify a with
  | NZero => true
  | _ => false
  end.

(** [Math.min] on two arguments: NaN is contagious and -0 is below +0. *)
Definition Math_min (a b : float) : float :=
  if is_nan a || is_nan b then nan
  else if a <? b then a
  else if b <? a then b
  else if isNegZero a then a else b.

(** [Math.max] on two arguments: NaN is contagious and +0 is above -0. *)
Definition Math_max (a b : float) : float :=
  if is_nan a || is_nan b then nan
  else if a <? b then b
  else if b <? a then a
  else if isNegZero a then b else a.

Definition Math_abs (a : float) : float := abs a.

(** [Number.isFinite] on a value that is a number. *)
Definition Number_isFinite (a : float) : bool := is_finite a.

(** [a >= b] *)
Definition geb (a b : float) : bool := b <=? a.

End JsNumber.
Import JsNumber.

(** ** Data model *)

(** A landmark as the evaluator meets it at run time: [x] and [y] are
    [Some v] when [typeof] gives ["number"], [None] otherwise. *)
Module Landmark.
Record t := mk { x : option float; y : option float }.
End Landmark.

Definition NormalizedLandmark := Landmark.t.

(** An entry of a landmark array; [None] is a [null]/[undefined] entry, on
    which [point?.x] is [undefined]. *)
Definition LandmarkSet := list (option NormalizedLandmark).

Definition point (px py : float) : option NormalizedLandmark :=
  Some (Landmark.mk (Some px) (Some py)).

Module ALIGNMENT_TARGET.
Definition minWidth := 0.34.
Definition minHeight := 0.44.
Definition nearWidth := 0.3.
Definition nearHeight := 0.36.
Definition centerToleranceX := 0.12.
Definition centerToleranceY := 0.12.
Definition targetCenterY := 0.5.
End ALIGNMENT_TARGET.

Record AlignmentVerdict := { isAligned : bool; isClose : bool }.

Definition rejected : AlignmentVerdict := {| isAligned := false; isClose := false |}.

(** ** Alignment evaluator *)

Record Bounds := { minX : float; maxX : float; minY : float; maxY : float }.

Definition emptyBounds : Bounds :=
  {| minX := infinity; maxX := neg_infinity; minY := infinity; maxY := neg_infinity |}.

Definition extend (b : Bounds) (px py : float) : Bounds :=
  {| minX := Math_min (minX b) px;
     maxX := Math_max (maxX b) px;
     minY := Math_min (minY b) py;
     maxY := Math_max (maxY b) py |}.

(** One iteration of the [for (const point of landmarks)] loop. *)
Definition scanPoint (b : Bounds) (p : option NormalizedLandmark) : Bounds :=
  match p with
  | Some (Landmark.mk (Some px) (Some py)) => extend b px py
  | _ => b
  end.

(** The verdict computed from the four bounds once they are known finite. *)
Definition verdictOfBounds (b : Bounds) : AlignmentVerdict :=
  let width := Math_max 0 (maxX b - minX b) in
  let height := Math_max 0 (maxY b - minY b) in
  let centerX := (minX b + maxX b) * 0.5 in
  let centerY := (minY b + maxY b) * 0.5 in
  let close :=
    geb width ALIGNMENT_TARGET.nearWidth && geb height ALIGNMENT_TARGET.nearHeight in
  let aligned :=
    geb width ALIGNMENT_TARGET.minWidth &&
    geb height ALIGNMENT_TARGET.minHeight &&
    (Math_abs (centerX - 0.5) <=? ALIGNMENT_TARGET.centerToleranceX) &&
    (Math_abs (centerY - ALIGNMENT_TARGET.targetCenterY) <=? ALIGNMENT_TARGET.centerToleranceY) in
  {| isAligned := aligned; isClose := close |}.

Definition boundsFinite (b : Bounds) : bool :=
  Number_isFinite (minX b) && Number_isFinite (maxX b) &&
  Number_isFinite (minY b) && Number_isFinite (maxY b).

Definition evaluateAlignment (landmarks : LandmarkSet) : AlignmentVerdict :=
  match landmarks with
  | [] => rejected
  | _ =>
      let b := fold_left scanPoint landmarks emptyBounds in
      if negb (Number_isFinite (minX b)) || negb (Number_isFinite (maxX b)) ||
         negb (Number_isFinite (minY b)) || negb (Number_isFinite (maxY b))
      then rejected
      else verdictOfBounds b
  end.

(** ** Engagement state *)

Local Open Scope string_scope.
Local Open Scope list_scope.
Local Open Scope Z_scope.

Definition MAX_MISS_COUNT : Z := 45.
Definition DISENGAGE_FRAME_LIMIT : Z := 12.
Definition CLOSE_UNLOCK_FRAMES : Z := 6.
(** The literal [60] of the auto-capture test in [renderLoop]. *)
Definition AUTO_CAPTURE_FRAMES : Z := 60.

(** [results.faceLandmarks]: one entry per face, [None] for a missing one. *)
Definition FaceList := list (option LandmarkSet).

(** The [useRef] cells read or written by the state machine, and the
    [statusMessage] state variable. [stream] is [streamRef.current !== null]. *)
Record Refs := mkRefs {
  isCameraOn : bool;
  stream : bool;
  lastLandmarks : option FaceList;
  missCount : Z;
  animationStart : option float;
  disengageCount : Z;
  closeFrameCount : Z;
  hasAnimationStarted : bool;
  guideHighlighted : bool;
  hasAutoCaptured : bool;
  autoCaptureFrameCount : Z;
  statusMessage : string
}.

Inductive Phase := Guide | Locked.

Definition phase (s : Refs) : Phase :=
  if hasAnimationStarted s then Locked else Guide.

(** The component as mounted: every [useRef] at its initial value. *)
Definition initialRefs : Refs :=
  {| isCameraOn := false; stream := false; lastLandmarks := None; missCount := 0;
     animationStart := None; disengageCount := 0; closeFrameCount := 0;
     hasAnimationStarted := false; guideHighlighted := false;
     hasAutoCaptured := false; autoCaptureFrameCount := 0;
     statusMessage := "Loading face mesh..." |}.

(** Assignment to one cell, the others kept. *)
Definition set_isCameraOn v (s : Refs) : Refs :=
  mkRefs v (stream s) (lastLandmarks s) (missCount s) (animationStart s) (disengageCount s) (closeFrameCount s) (hasAnimationStarted s) (guideHighlighted s) (hasAutoCaptured s) (autoCaptureFrameCount s) (statusMessage s).
Definition set_stream v (s : Refs) : Refs :=
  mkRefs (isCameraOn s) v (lastLandmarks s) (missCount s) (animationStart s) (disengageCount s) (closeFrameCount s) (hasAnimationStarted s) (guideHighlighted s) (hasAutoCaptured s) (autoCaptureFrameCount s) (statusMessage s).
Definition set_lastLandmarks v (s : Refs) : Refs :=
  mkRefs (isCameraOn s) (stream s) v (missCount s) (animationStart s) (disengageCount s) (closeFrameCount s) (hasAnimationStarted s) (guideHighlighted s) (hasAutoCaptured s) (autoCaptureFrameCount s) (statusMessage s).
Definition set_missCount v (s : Refs) : Refs :=
  mkRefs (isCameraOn s) (stream s) (lastLandmarks s) v (animationStart s) (disengageCount s) (closeFrameCount s) (hasAnimationStarted s) (guideHighlighted s) (hasAutoCaptured s) (autoCaptureFrameCount s) (statusMessage s).
Definition set_animationStart v (s : Refs) : Refs :=
  mkRefs (isCameraOn s) (stream s) (lastLandmarks s) (missCount s) v (disengageCount s) (closeFrameCount s) (hasAnimationStarted s) (guideHighlighted s) (hasAutoCaptured s) (autoCaptureFrameCount s) (statusMessage s).
Definition set_disengageCount v (s : Refs) : Refs :=
  mkRefs (isCameraOn s) (stream s) (lastLandmarks s) (missCount s) (animationStart s) v (closeFrameCount s) (hasAnimationStarted s) (guideHighlighted s) (hasAutoCaptured s) (autoCaptureFrameCount s) (statusMessage s).
Definition set_closeFrameCount v (s : Refs) : Refs :=
  mkRefs (isCameraOn s) (stream s) (lastLandmarks s) (missCount s) (animationStart s) (disengageCount s) v (hasAnimationStarted s) (guideHighlighted s) (hasAutoCaptured s) (autoCaptureFrameCount s) (statusMessage s).
Definition set_hasAnimationStarted v (s : Refs) : Refs :=
  mkRefs (isCameraOn s) (stream s) (lastLandmarks s) (missCount s) (animationStart s) (disengageCount s) (closeFrameCount s) v (guideHighlighted s) (hasAutoCaptured s) (autoCaptureFrameCount s) (statusMessage s).
Definition set_guideHighlighted v (s : Refs) : Refs :=
  mkRefs (isCameraOn s) (stream s) (lastLandmarks s) (missCount s) (animationStart s) (disengageCount s) (closeFrameCount s) (hasAnimationStarted s) v (hasAutoCaptured s) (autoCaptureFrameCount s) (statusMessage s).
Definition set_hasAutoCaptured v (s : Refs) : Refs :=
  mkRefs (isCameraOn s) (stream s) (lastLandmarks s) (missCount s) (animationStart s) (disengageCount s) (closeFrameCount s) (hasAnimationStarted s) (guideHighlighted s) v (autoCaptureFrameCount s) (statusMessage s).
Definition set_autoCaptureFrameCount v (s : Refs) : Refs :=
  mkRefs (isCameraOn s) (stream s) (lastLandmarks s) (missCount s) (animationStart s) (disengageCount s) (closeFrameCount s) (hasAnimationStarted s) (guideHighlighted s) (hasAutoCaptured s) v (statusMessage s).
Definition set_statusMessage v (s : Refs) : Refs :=
  mkRefs (isCameraOn s) (stream s) (lastLandmarks s) (missCount s) (animationStart s) (disengageCount s) (closeFrameCount s) (hasAnimationStarted s) (guideHighlighted s) (hasAutoCaptured s) (autoCaptureFrameCount s) v.

Notation "s |> f" := (f s) (at level 45, left associativity, only parsing).

(** ** Frame driver inputs *)

(** What [landmarker.detectForVideo] does on one frame: it throws, or it
    returns [results], of which only [results?.faceLandmarks] is read
    ([None] when [results] or the field is missing). *)
Inductive Detection :=
| DetectThrows
| DetectResult (faceLandmarks : option FaceList).

(** What one iteration of [renderLoop] observes of its environment. *)
Record Frame := mkFrame {
  hasBundle : bool;            (* bundleRef.current *)
  hasVideo : bool;             (* videoRef.current *)
  hasCanvas : bool;            (* canvasRef.current *)
  readyState : Z;              (* video.readyState *)
  hasContext : bool;           (* canvas.getContext("2d") *)
  now : float;                 (* performance.now() *)
  detection : Detection
}.

(** What one iteration does besides updating the cells: the calls of
    [captureScreenshot] (each with its [autoUpload] argument), whether the
    next iteration was requested, and whether the mesh was painted. *)
Record Outcome := mkOutcome {
  captures : list bool;
  rescheduled : bool;
  meshDrawn : bool
}.

(** ** State machine *)

Definition revertToGuide (message : option string) (s : Refs) : Refs :=
  if negb (hasAnimationStarted s) then
    match message with
    | Some m => s |> set_statusMessage m
    | None => s
    end
  else
    s |> set_hasAnimationStarted false
      |> set_animationStart None
      |> set_disengageCount 0
      |> set_closeFrameCount 0
      |> set_lastLandmarks None
      |> set_missCount 0
      |> set_guideHighlighted false
      |> set_statusMessage
           match message with
           | Some m => m
           | None => "Line up your face with the outline to begin."
           end.

(** [disengageCountRef.current += 1] followed by the limit test, as it
    appears in the two branches without a primary face. *)
Definition trackingLost (s : Refs) : Refs :=
  let s := s |> set_disengageCount (disengageCount s + 1) in
  if disengageCount s >? DISENGAGE_FRAME_LIMIT
  then revertToGuide (Some "Tracking lost — step into the outline to start again.") s
  else s.

(** The branch [!hasAnimationStartedRef.current] of a frame with a face. *)
Definition guideFrame (now : float) (v : AlignmentVerdict) (s : Refs) : Refs :=
  let s := s |> set_disengageCount 0 in
  let s :=
    if negb (Bool.eqb (guideHighlighted s) (isClose v)) then
      s |> set_guideHighlighted (isClose v)
        |> set_statusMessage
             (if isClose v
              then "Hold still — we're about to unlock the mesh."
              else "Move closer and line up with the outline to begin.")
    else s in
  let s :=
    if isClose v
    then s |> set_closeFrameCount (closeFrameCount s + 1)
    else s |> set_closeFrameCount 0 in
  if isAligned v || (closeFrameCount s >=? CLOSE_UNLOCK_FRAMES) then
    s |> set_hasAnimationStarted true
      |> set_guideHighlighted false
      |> set_animationStart (Some now)
      |> set_disengageCount 0
      |> set_closeFrameCount 0
      |> set_statusMessage "Mesh unlocked — move around to explore."
  else s.

(** The branch [hasAnimationStartedRef.current] of a frame with a face;
    also returns the calls of [captureScreenshot]. *)
Definition lockedFrame (v : AlignmentVerdict) (s : Refs) : Refs * list bool :=
  if isClose v then
    let s := s |> set_disengageCount 0 |> set_closeFrameCount 0 in
    if negb (hasAutoCaptured s) then
      let s := s |> set_autoCaptureFrameCount (autoCaptureFrameCount s + 1) in
      if autoCaptureFrameCount s >=? AUTO_CAPTURE_FRAMES then
        (s |> set_hasAutoCaptured true
           |> set_statusMessage "Auto-capturing and uploading your face...",
         [true])
      else (s, [])
    else (s, [])
  else
    let s := s |> set_disengageCount (disengageCount s + 1)
               |> set_autoCaptureFrameCount 0 in
    if disengageCount s >? DISENGAGE_FRAME_LIMIT then
      (revertToGuide
         (Some "You're too far away — move into the outline to relaunch the mesh.") s,
       [])
    else (s, []).

(** The [if (results?.faceLandmarks?.length) ... else if ... else if ...]
    chain of [renderLoop]. *)
Definition applyDetection (now : float) (faceLandmarks : option FaceList)
    (s : Refs) : Refs * list bool :=
  match faceLandmarks with
  | Some ((primaryFace :: _) as faces) =>
      let s := s |> set_lastLandmarks (Some faces) |> set_missCount 0 in
      match primaryFace with
      | Some face =>
          let v := evaluateAlignment face in
          if negb (hasAnimationStarted s)
          then (guideFrame now v s, [])
          else lockedFrame v s
      | None =>
          if hasAnimationStarted s then (trackingLost s, []) else (s, [])
      end
  | _ =>
      match lastLandmarks s with
      | Some _ =>
          let s := s |> set_missCount (missCount s + 1) in
          let s := if hasAnimationStarted s then trackingLost s else s in
          let s :=
            if missCount s >? MAX_MISS_COUNT
            then s |> set_lastLandmarks None
            else s in
          (s, [])
      | None =>
          if negb (hasAnimationStarted s) && guideHighlighted s then
            (s |> set_guideHighlighted false
               |> set_statusMessage "Move closer and line up with the outline to begin."
               |> set_closeFrameCount 0,
             [])
          else (s, [])
      end
  end.

(** [facesToDraw?.length && hasAnimationStartedRef.current] *)
Definition paints (s : Refs) : bool :=
  match lastLandmarks s with
  | Some (_ :: _) => hasAnimationStarted s
  | _ => false
  end.

Definition skipped (again : bool) : Outcome :=
  {| captures := []; rescheduled := again; meshDrawn := false |}.

(** [if (animationStartRef.current === null) animationStartRef.current = now] *)
Definition stampStart (t : float) (s : Refs) : Refs :=
  match animationStart s with
  | None => s |> set_animationStart (Some t)
  | Some _ => s
  end.

(** The iteration from the detection call on. *)
Definition detectAndUpdate (f : Frame) (s : Refs) : Refs * Outcome :=
  match detection f with
  | DetectThrows => (s, skipped true)
  | DetectResult faceLandmarks =>
      let '(s, shots) := applyDetection (now f) faceLandmarks s in
      (s, {| captures := shots; rescheduled := isCameraOn s; meshDrawn := paints s |})
  end.

(** One iteration of the frame driver. The resizing of the overlay canvas
    and the painting itself are left out; [meshDrawn] tells whether the
    painting loop runs. *)
Definition renderLoop (s : Refs) (f : Frame) : Refs * Outcome :=
  if negb (isCameraOn s) then (s, skipped false)
  else if negb (hasBundle f) || negb (hasVideo f) || negb (hasCanvas f)
  then (s, skipped (isCameraOn s))
  else if readyState f <? 2 then (s, skipped true)
  else if negb (hasContext f) then (s, skipped true)
  else detectAndUpdate f (stampStart (now f) s).

(** ** Session control *)

(** [stopCamera]. Its [await] on the pending iteration lets no frame in:
    the scheduled iteration has been cancelled and [renderLoop] has no
    suspension point of its own. Stopping the tracks and detaching the
    video are not modelled beyond clearing [stream]. *)
Definition stopCamera (s : Refs) : Refs :=
  if negb (isCameraOn s) && negb (stream s) then
    s |> set_statusMessage "Camera disabled."
  else
    s |> set_isCameraOn false
      |> set_stream false
      |> set_missCount 0
      |> set_lastLandmarks None
      |> set_animationStart None
      |> set_disengageCount 0
      |> set_closeFrameCount 0
      |> set_hasAnimationStarted false
      |> set_guideHighlighted false
      |> set_hasAutoCaptured false
      |> set_autoCaptureFrameCount 0
      |> set_statusMessage "Camera disabled.".

(** How far a call of [startCamera] gets. *)
Inductive StartOutcome :=
| NotReady          (* !isReady || !bundleRef.current *)
| MediaRefused      (* getUserMedia rejects *)
| NoVideoElement    (* videoRef.current is null *)
| PlayRejected      (* video.play() rejects *)
| Playing.

(** [startCamera] up to, and without, its closing call of [renderLoop],
    which is the first [Tick] of the session. *)
Definition startCamera (o : StartOutcome) (s : Refs) : Refs :=
  match o with
  | NotReady => s
  | MediaRefused => stopCamera (s |> set_statusMessage "Starting camera...")
  | NoVideoElement => s |> set_statusMessage "Starting camera..."
  | PlayRejected =>
      stopCamera (s |> set_statusMessage "Starting camera..." |> set_stream true)
  | Playing =>
      s |> set_stream true
        |> set_lastLandmarks None
        |> set_missCount 0
        |> set_isCameraOn true
        |> set_hasAnimationStarted false
        |> set_guideHighlighted false
        |> set_hasAutoCaptured false
        |> set_autoCaptureFrameCount 0
        |> set_disengageCount 0
        |> set_closeFrameCount 0
        |> set_animationStart None
        |> set_statusMessage "Line up your face with the outline to begin."
  end.

(** What can happen to the mounted component. *)
Inductive Event :=
| Start (o : StartOutcome)
| Stop
| Tick (f : Frame).

Definition step (s : Refs) (e : Event) : Refs :=
  match e with
  | Start o => startCamera o s
  | Stop => stopCamera s
  | Tick f => fst (renderLoop s f)
  end.

Definition session (es : list Event) : Refs := fold_left step es initialRefs.

Inductive Reachable : Refs -> Prop :=
| reach_init : Reachable initialRefs
| reach_step s e : Reachable s -> Reachable (step s e).

(** Consecutive iterations: the final cells and, per frame, the calls of
    [captureScreenshot] it made. *)
Fixpoint feed (s : Refs) (fs : list Frame) : Refs * list (list bool) :=
  match fs with
  | [] => (s, [])
  | f :: rest =>
      let '(s1, o) := renderLoop s f in
      let '(s2, log) := feed s1 rest in
      (s2, captures o :: log)
  end.

(** ** Classification of frames *)

(** An iteration that gets as far as the detection call. *)
Definition reachesDetection (f : Frame) : bool :=
  hasBundle f && hasVideo f && hasCanvas f && (2 <=? readyState f) && hasContext f.

(** The verdict on the primary face, when the iteration computes one. *)
Definition verdictOf (f : Frame) : option AlignmentVerdict :=
  if reachesDetection f then
    match detection f with
    | DetectResult (Some (Some face :: _)) => Some (evaluateAlignment face)
    | _ => None
    end
  else None.

(** Detection ran and returned no face list, or an empty one. *)
Definition emptyDetection (f : Frame) : bool :=
  reachesDetection f &&
  match detection f with
  | DetectResult None | DetectResult (Some []) => true
  | _ => false
  end.

(** Detection ran and returned faces, the first of which is missing. *)
Definition missingPrimary (f : Frame) : bool :=
  reachesDetection f &&
  match detection f with
  | DetectResult (Some (None :: _)) => true
  | _ => false
  end.

(** Detection ran and returned without a usable primary face. *)
Definition noFace (f : Frame) : bool := emptyDetection f || missingPrimary f.

Definition closeFrame (f : Frame) : bool :=
  match verdictOf f with
  | Some v => isClose v
  | None => false
  end.

(** A face is present, close, and not aligned. *)
Definition closeUnaligned (f : Frame) : bool :=
  match verdictOf f with
  | Some v => isClose v && negb (isAligned v)
  | None => false
  end.

(** A face is present but not close. *)
Definition farFrame (f : Frame) : bool :=
  match verdictOf f with
  | Some v => negb (isClose v)
  | None => false
  end.

(** A frame that counts towards disengagement in [Locked]: a face that is
    not close, or no face. *)
Definition disengaging (f : Frame) : bool := farFrame f || noFace f.

Definition throwingFrame (f : Frame) : bool :=
  reachesDetection f &&
  match detection f with
  | DetectThrows => true
  | _ => false
  end.

(** The frame [f] with an empty detection result in place of its own. *)
Definition withEmptyResult (f : Frame) : Frame :=
  mkFrame (hasBundle f) (hasVideo f) (hasCanvas f) (readyState f) (hasContext f)
          (now f) (DetectResult None).

(** ** Capture pipeline *)

(** The part of the 2D canvas that [captureScreenshot] uses, after the
    HTML canvas model: a bitmap of [width] by [height] pixels, a current
    transformation matrix with its [save]/[restore] stack, and [drawImage]
    placing the whole source image on a destination rectangle given in
    user space. Coordinates are exact rationals. *)
Module Canvas.

(** The matrix sends [(x, y)] to [(a x + c y + e, b x + d y + f)]. *)
Record Matrix := mkMatrix { ma : Q; mb : Q; mc : Q; md : Q; me : Q; mf : Q }.

Definition identity : Matrix := mkMatrix 1 0 0 1 0 0.

Definition transformPoint (m : Matrix) (p : Q * Q) : Q * Q :=
  (ma m * fst p + mc m * snd p + me m, mb m * fst p + md m * snd p + mf m)%Q.

(** One [drawImage] call as it marks the bitmap: the matrix in force and
    the destination rectangle. *)
Record Drawn := mkDrawn { ctm : Matrix; dx : Q; dy : Q; dw : Q; dh : Q }.

Record t := mk {
  width : Z;
  height : Z;
  transform : Matrix;
  saved : list Matrix;
  bitmap : list Drawn
}.

(** [document.createElement("canvas")] *)
Definition create : t := mk 300 150 identity [] [].

(** Assigning [width] or [height] clears the bitmap and resets the
    context state. *)
Definition setWidth (w : Z) (c : t) : t := mk w (height c) identity [] [].
Definition setHeight (h : Z) (c : t) : t := mk (width c) h identity [] [].

Definition save (c : t) : t :=
  mk (width c) (height c) (transform c) (transform c :: saved c) (bitmap c).

Definition restore (c : t) : t :=
  match saved c with
  | m :: rest => mk (width c) (height c) m rest (bitmap c)
  | [] => c
  end.

Definition scale (sx sy : Q) (c : t) : t :=
  let m := transform c in
  mk (width c) (height c)
     (mkMatrix (ma m * sx) (mb m * sx) (mc m * sy) (md m * sy) (me m) (mf m))%Q
     (saved c) (bitmap c).

Definition drawImage (x y w h : Q) (c : t) : t :=
  mk (width c) (height c) (transform c) (saved c)
     (bitmap c ++ [mkDrawn (transform c) x y w h]).

(** Where the source point at normalized [(u, v)] lands, in pixels of
    the bitmap. *)
Definition lands (d : Drawn) (u v : Q) : Q * Q :=
  transformPoint (ctm d) (dx d + u * dw d, dy d + v * dh d)%Q.

End Canvas.

Record Video := mkVideo { videoWidth : Z; videoHeight : Z }.

(** What a call of [captureScreenshot] finds. *)
Record CaptureEnv := mkCaptureEnv {
  video : option Video;               (* videoRef.current *)
  cameraOn : bool;                    (* isCameraOnRef.current *)
  captureCanvas : option Canvas.t;    (* captureCanvasRef.current *)
  contextAvailable : bool;            (* getContext("2d") is not null *)
  blobCreated : bool                  (* toBlob hands over a value *)
}.

(** The image handed to the sinks: the pixel size of the encoded bitmap,
    what was drawn on it, and whether the upload sink is used. *)
Record Artifact := mkArtifact {
  imageWidth : Z;
  imageHeight : Z;
  content : list Canvas.Drawn;
  autoUploaded : bool
}.

Inductive CaptureResult :=
| NoCapture (uploadStatus : string)
| Captured (a : Artifact).

Definition captureScreenshot (autoUpload : bool) (env : CaptureEnv) : CaptureResult :=
  match video env with
  | None => NoCapture "Switch on the camera before capturing a snapshot."
  | Some v =>
      if negb (cameraOn env) || (videoWidth v =? 0) || (videoHeight v =? 0) then
        NoCapture "Switch on the camera before capturing a snapshot."
      else
        let c :=
          match captureCanvas env with
          | Some c => c
          | None => Canvas.create
          end in
        let c := c |> Canvas.setWidth (videoWidth v) |> Canvas.setHeight (videoHeight v) in
        if negb (contextAvailable env) then
          NoCapture "Unable to create a canvas for the snapshot."
        else
          let c :=
            c |> Canvas.save
              |> Canvas.scale (-1) 1
              |> Canvas.drawImage (- inject_Z (Canvas.width c)) 0
                                  (inject_Z (Canvas.width c)) (inject_Z (Canvas.height c))
              |> Canvas.restore in
          if blobCreated env then
            Captured {| imageWidth := Canvas.width c;
                        imageHeight := Canvas.height c;
                        content := Canvas.bitmap c;
                        autoUploaded := autoUpload |}
          else NoCapture "Capturing the snapshot failed. Please try again."
  end.

(** ** Sample inputs *)

(** An iteration with everything in place at time [t] whose detection
    returns [faces]. *)
Definition frameWith (t : float) (faces : option FaceList) : Frame :=
  mkFrame true true true 4 true t (DetectResult faces).

Definition throwingAt (t : float) : Frame :=
  mkFrame true true true 4 true t DetectThrows.

(** A face filling the frame: aligned and close. *)
Definition alignedFace : LandmarkSet := [point 0.2 0.2; point 0.8 0.8].
(** Wide and tall enough to be close, too narrow to be aligned. *)
Definition nearFace : LandmarkSet := [point 0.1 0.1; point 0.42 0.5].
(** A small face. *)
Definition smallFace : LandmarkSet := [point 0.4 0.4; point 0.5 0.5].

Definition alignedFrame : Frame := frameWith 16 (Some [Some alignedFace]).
Definition nearFrame : Frame := frameWith 32 (Some [Some nearFace]).
Definition smallFrame : Frame := frameWith 48 (Some [Some smallFace]).
Definition emptyFrame : Frame := frameWith 64 None.

(** A session that has just locked onto an aligned face. *)
Definition justLocked : Refs := session [Start Playing; Tick alignedFrame].

(** ** Invariant of the reachable states *)

(** The cells the state machine owns, as [stopCamera] leaves them. *)
Definition machineReset (s : Refs) : Prop :=
  hasAutoCaptured s = false /\
  closeFrameCount s = 0 /\ disengageCount s = 0 /\
  missCount s = 0 /\ autoCaptureFrameCount s = 0 /\
  lastLandmarks s = None /\ animationStart s = None /\
  phase s = Guide.

(** The cells that [revertToGuide] clears. *)
Definition reverted (s : Refs) : Prop :=
  hasAnimationStarted s = false /\
  closeFrameCount s = 0 /\ disengageCount s = 0 /\ missCount s = 0 /\
  lastLandmarks s = None /\ animationStart s = None.

Record Inv (s : Refs) : Prop := mkInv {
  inv_off : isCameraOn s = false -> machineReset s;
  inv_locked :
    hasAnimationStarted s = true ->
    lastLandmarks s <> None /\
    0 <= missCount s <= disengageCount s /\
    disengageCount s <= DISENGAGE_FRAME_LIMIT;
  inv_latch :
    hasAutoCaptured s = false ->
    0 <= autoCaptureFrameCount s < AUTO_CAPTURE_FRAMES;
  inv_guide :
    hasAnimationStarted s = false ->
    0 <= closeFrameCount s < CLOSE_UNLOCK_FRAMES /\
    (0 < closeFrameCount s -> guideHighlighted s = true);
  inv_bounds :
    0 <= missCount s <= MAX_MISS_COUNT + 1 /\
    (lastLandmarks s <> None -> missCount s <= MAX_MISS_COUNT) /\
    0 <= disengageCount s <= DISENGAGE_FRAME_LIMIT /\
    0 <= closeFrameCount s < CLOSE_UNLOCK_FRAMES /\
    0 <= autoCaptureFrameCount s <= AUTO_CAPTURE_FRAMES
}.

(** ** The evaluator's contract

    [evaluateAlignment_spec] follows the contract's wording: the bounding
    box of the finite (x, y) pairs, no verdict without one, and the two
    threshold tests on its width, height and midpoint. *)

Local Open Scope float_scope.

(** The points whose [x] and [y] are both numbers, in order. *)
Fixpoint numericPairs (lm : LandmarkSet) : list (float * float) :=
  match lm with
  | [] => []
  | Some (Landmark.mk (Some px) (Some py)) :: rest => (px, py) :: numericPairs rest
  | _ :: rest => numericPairs rest
  end.

Definition finitePair (p : float * float) : bool :=
  is_finite (fst p) && is_finite (snd p).

Definition finitePairs (lm : LandmarkSet) : list (float * float) :=
  filter finitePair (numericPairs lm).

Definition extendPair (b : Bounds) (p : float * float) : Bounds :=
  extend b (fst p) (snd p).

(** The axis-aligned bounding box of a non-empty list of points. *)
Definition boundingBox (pts : list (float * float)) : option Bounds :=
  match pts with
  | [] => None
  | (px, py) :: rest =>
      Some (fold_left extendPair rest
              {| minX := px; maxX := px; minY := py; maxY := py |})
  end.

Definition verdict_spec (b : Bounds) : AlignmentVerdict :=
  let width := maxX b - minX b in
  let height := maxY b - minY b in
  let centerX := (minX b + maxX b) * 0.5 in
  let centerY := (minY b + maxY b) * 0.5 in
  {| isAligned :=
       geb width 0.34 && geb height 0.44 &&
       (abs (centerX - 0.5) <=? 0.12) && (abs (centerY - 0.5) <=? 0.12);
     isClose := geb width 0.3 && geb height 0.36 |}.

Definition evaluateAlignment_spec (lm : LandmarkSet) : AlignmentVerdict :=
  match boundingBox (finitePairs lm) with
  | None => rejected
  | Some b => verdict_spec b
  end.

(** [b] encloses every point of [pts] and touches one on each side. *)
Definition encloses (b : Bounds) (pts : list (float * float)) : Prop :=
  (forall p, In p pts ->
     (minX b <=? fst p) = true /\ (fst p <=? maxX b) = true /\
     (minY b <=? snd p) = true /\ (snd p <=? maxY b) = true) /\
  (exists p, In p pts /\ (minX b =? fst p) = true) /\
  (exists p, In p pts /\ (maxX b =? fst p) = true) /\
  (exists p, In p pts /\ (minY b =? snd p) = true) /\
  (exists p, In p pts /\ (maxY b =? snd p) = true).

(** ** Binary64 values as [spec_float] *)

Module SF.
Definition is_nan (x : spec_float) : bool :=
  match x with S754_nan => true | _ => false end.
Definition is_finite (x : spec_float) : bool :=
  match x with S754_zero _ | S754_finite _ _ _ => true | _ => false end.
Definition is_neg_zero (x : spec_float) : bool :=
  match x with S754_zero true => true | _ => false end.
Definition min (x y : spec_float) : spec_float :=
  match SFcompare x y with
  | None => S754_nan
  | Some Lt => x
  | Some Gt => y
  | Some Eq => if is_neg_zero x then x else y
  end.
Definition max (x y : spec_float) : spec_float :=
  match SFcompare x y with
  | None => S754_nan
  | Some Lt => y
  | Some Gt => x
  | Some Eq => if is_neg_zero x then y else x
  end.
End SF.

(** A bound that no later point can make finite again: NaN, or the
    infinity on its own side. *)
Definition stuckLow (m : float) : bool :=
  match Prim2SF m with S754_nan | S754_infinity true => true | _ => false end.
Definition stuckHigh (m : float) : bool :=
  match Prim2SF m with S754_nan | S754_infinity false => true | _ => false end.
Definition tainted (b : Bounds) : bool :=
  stuckLow (minX b) || stuckHigh (maxX b) || stuckLow (minY b) || stuckHigh (maxY b).

Local Open Scope Z_scope.

(** ** Camera button *)



(** The iteration gets a detection result back, whatever it holds. *)
Definition returnsResult (f : Frame) : bool :=
  reachesDetection f &&
  match detection f with
  | DetectResult _ => true
  | DetectThrows => false
  end.

(** What else every reachable state satisfies: each counter rests at 0
    outside its phase, a locked machine has a start time, no highlight and
    a non-empty face list, and the stream is held exactly while the camera
    is on. *)
Record Settled (s : Refs) : Prop := mkSettled {
  settled_guide : hasAnimationStarted s = false -> disengageCount s = 0;
  settled_locked :
    hasAnimationStarted s = true ->
    closeFrameCount s = 0 /\ guideHighlighted s = false /\ animationStart s <> None;
  settled_faces : lastLandmarks s <> Some [];
  settled_stream : stream s = isCameraOn s
}.

(** The same call with [c] as the canvas cached by an earlier capture. *)
Definition withCachedCanvas (c : option Canvas.t) (env : CaptureEnv) : CaptureEnv :=
  mkCaptureEnv (video env) (cameraOn env) c (contextAvailable env) (blobCreated env).

(** ** Image handling utilities *)

Module ImageHandler.

Record Blob := mkBlob { blobType : string; blobSize : Z }.

Record SavedImage := mkSavedImage {
  filename : string;
  path : string;
  blob : Blob;
  dataUrl : string;
  timestamp : Z
}.

(** The object that [saveImageMetadata] stores for one image. *)
Record Metadata := mkMetadata {
  metaFilename : string;
  metaPath : string;
  metaTimestamp : Z;
  thumbnailUrl : string
}.

Definition metadataOf (image : SavedImage) : Metadata :=
  mkMetadata (filename image) (path image) (timestamp image)
             (String.append (String.substring 0 100 (dataUrl image)) "...").

(** The item ['capturedImages'] of [localStorage] as the function meets
    it: absent (or the empty string); text on which [JSON.parse] throws or
    gives something without [unshift]; or an array, here of the objects
    written by earlier calls, which [JSON.stringify] and [JSON.parse]
    carry unchanged. *)
Inductive Stored :=
| Absent
| Unusable
| Images (savedImages : list Metadata).

(** [quotaExceeded] tells whether [localStorage.setItem] throws. *)
Definition saveImageMetadata (quotaExceeded : bool) (image : SavedImage)
    (item : Stored) : Stored :=
  let metadata := metadataOf image in
  match item with
  | Unusable => item
  | Absent | Images _ =>
      let savedImages := match item with Images l => l | _ => [] end in
      let savedImages := metadata :: savedImages in
      let savedImages :=
        if (10 <? length savedImages)%nat then removelast savedImages else savedImages in
      if quotaExceeded then item else Images savedImages
  end.

(** Captures saved one after the other, none hitting the quota. *)
Definition saveAll (images : list SavedImage) (item : Stored) : Stored :=
  fold_left (fun item image => saveImageMetadata false image item) images item.

End ImageHandler.

(** ** Radar chart of the concerns *)

Module SkinConcernChart.

Record ConcernScore := mkConcernScore {
  id : string;
  name : string;
  uiScore : float;
  rawScore : float
}.

(** [Math.max(0, Math.min(1, concern.uiScore / 100))] *)
Definition magnitude (concern : ConcernScore) : float :=
  Math_max 0 (Math_min 1 (uiScore concern / 100))%float.

(** The callback of the [reduce] that picks the dominant concern. *)
Definition higher (previous current : ConcernScore) : ConcernScore :=
  if (uiScore previous <? uiScore current)%float then current else previous.

(** [axisPoints.reduce(..., axisPoints[0])]; an axis point carries the
    fields of its concern. [None] when there is no concern, where the
    component renders nothing. *)
Definition dominantConcern (concerns : list ConcernScore) : option ConcernScore :=
  match concerns with
  | [] => None
  | first :: _ => Some (fold_left higher concerns first)
  end.

End SkinConcernChart.

(** ** Connector lists *)

(** The JavaScript values that [normalizeConnectorList] tells apart. A
    [Typed] value is a typed array of numbers; an [Object] is a plain
    object given by its own properties, each key once. *)
Module Js.

Set Warnings "-register-all".

Inductive Value :=
| Undefined
| Null
| Bool (b : bool)
| Number (n : float)
| Text (s : string)
| Array (items : list Value)
| Typed (numbers : list float)
| Object (fields : list (string * Value)).

(** [!!v] *)
Definition truthy (v : Value) : bool :=
  match v with
  | Undefined | Null => false
  | Bool b => b
  | Number n => negb (is_nan n || is_zero n)
  | Text s => negb (String.eqb s EmptyString)
  | Array _ | Typed _ | Object _ => true
  end.

(** [key in object] and [object[key]] on own properties. *)
Fixpoint lookup (key : string) (fields : list (string * Value)) : option Value :=
  match fields with
  | [] => None
  | (k, v) :: rest => if String.eqb k key then Some v else lookup key rest
  end.

End Js.

Section Connectors.

(** [Number(v)] on the values whose conversion goes through their text:
    strings, arrays, typed arrays and objects. *)
Variable coerce : Js.Value -> float.

(** [Number(v)] *)
Definition toNumber (v : Js.Value) : float :=
  match v with
  | Js.Number n => n
  | Js.Undefined => nan
  | Js.Null => 0%float
  | Js.Bool b => if b then 1%float else 0%float
  | _ => coerce v
  end.

Definition isPairArray (value : Js.Value) : bool :=
  match value with
  | Js.Array (a :: b :: _) => is_finite (toNumber a) && is_finite (toNumber b)
  | _ => false
  end.

(** The two-element array [[start, end]] that the loops push. *)
Definition connector (start finish : float) : Js.Value :=
  Js.Array [Js.Number start; Js.Number finish].

(** What one entry adds to [normalized] in the loop over an array. *)
Definition fromEntry (entry : Js.Value) : list Js.Value :=
  match entry with
  | Js.Array (a :: b :: _) =>
      if is_finite (toNumber a) && is_finite (toNumber b)
      then [connector (toNumber a) (toNumber b)]
      else []
  | Js.Object fields =>
      match Js.lookup "start" fields, Js.lookup "end" fields with
      | Some s, Some e =>
          if is_finite (toNumber s) && is_finite (toNumber e)
          then [connector (toNumber s) (toNumber e)]
          else []
      | _, _ => []
      end
  | _ => []
  end.

(** The loop [for (let i = 0; i + 1 < arrayLike.length; i += 2)]. *)
Fixpoint fromFlat (arrayLike : list Js.Value) : list Js.Value :=
  match arrayLike with
  | a :: b :: rest =>
      (if is_finite (toNumber a) && is_finite (toNumber b)
       then [connector (toNumber a) (toNumber b)]
       else []) ++ fromFlat rest
  | _ => []
  end.

(** [None] on the one kind of value left out: an object with an own
    property named [length], which the code reads as array-like. *)
Definition normalizeConnectorList (connectors : Js.Value) : option (list Js.Value) :=
  if negb (Js.truthy connectors) then Some []
  else
    match connectors with
    | Js.Array items =>
        if match items with
           | first :: _ => isPairArray first
           | [] => false
           end
        then Some items
        else
          match flat_map fromEntry items with
          | [] => Some (fromFlat items)
          | normalized => Some normalized
          end
    | Js.Typed numbers => Some (fromFlat (map Js.Number numbers))
    | Js.Object fields =>
        match Js.lookup "length" fields with
        | Some _ => None
        | None => Some []
        end
    | _ => Some []
    end.

(** An entry of the shape the drawing code expects. *)
Definition wellFormedConnector (v : Js.Value) : Prop :=
  exists start finish,
    v = connector start finish /\ is_finite start = true /\ is_finite finish = true.

(** The shortcut of the array case applies. *)
Definition takenAsIs (connectors : Js.Value) : bool :=
  match connectors with
  | Js.Array (first :: _) => isPairArray first
  | _ => false
  end.

End Connectors.

(** A MediaPipe connection [{start, end}]. *)
Definition connection (start finish : float) : Js.Value :=
  Js.Object [("start", Js.Number start); ("end", Js.Number finish)].

Definition finiteEnds (p : float * float) : bool :=
  is_finite (fst p) && is_finite (snd p).

(** Consecutive numbers taken two by two; a last odd one is left over. *)
Fixpoint pairUp (numbers : list float) : list (float * float) :=
  match numbers with
  | a :: b :: rest => (a, b) :: pairUp rest
  | _ => []
  end.

(** ** Sending a snapshot for analysis *)

Module SkinAnalysisApi.

(** What a rejected promise carries: an [Error] with its message, or
    something else. *)
Inductive Thrown :=
| ThrownError (message : string)
| ThrownOther.

(** [error instanceof Error ? error.message : fallback] *)
Definition messageOr (fallback : string) (t : Thrown) : string :=
  match t with
  | ThrownError message => message
  | ThrownOther => fallback
  end.

(** [response.json()] *)
Inductive Body :=
| BodyFails (t : Thrown)
| BodyIs (data : Js.Value).

(** [fetch(...)] *)
Inductive Fetched :=
| FetchFails (t : Thrown)
| Responds (ok : bool) (status : Z) (body : Body).

Definition decimal (z : Z) : string := NilZero.string_of_int (Z.to_int z).
Definition index (n : nat) : string := NilZero.string_of_uint (Nat.to_uint n).

(** Assignment to a property of an object literal under construction. *)
Fixpoint setField (key : string) (v : Js.Value) (fields : list (string * Js.Value))
    : list (string * Js.Value) :=
  match fields with
  | [] => [(key, v)]
  | (k, x) :: rest =>
      if String.eqb k key then (k, v) :: rest else (k, x) :: setField key v rest
  end.

Fixpoint indexed {A} (wrap : A -> Js.Value) (i : nat) (l : list A)
    : list (string * Js.Value) :=
  match l with
  | [] => []
  | a :: rest => (index i, wrap a) :: indexed wrap (S i) rest
  end.

(** The own enumerable properties that [...data] copies. *)
Definition ownFields (data : Js.Value) : list (string * Js.Value) :=
  match data with
  | Js.Object fields => fields
  | Js.Array items => indexed (fun v => v) 0 items
  | Js.Typed numbers => indexed Js.Number 0 numbers
  | Js.Text s => indexed (fun c => Js.Text (String c EmptyString)) 0 (list_ascii_of_string s)
  | _ => []
  end.

(** [{ ...base, ...data }] *)
Definition spreadOver (base : list (string * Js.Value)) (data : Js.Value)
    : list (string * Js.Value) :=
  fold_left (fun o kv => setField (fst kv) (snd kv) o) (ownFields data) base.

(** [process.env.NEXT_PUBLIC_SKIN_BACKEND_URL || ''] *)
Definition BACKEND_ENDPOINT (env : option string) : string :=
  match env with
  | Some e => if String.eqb e EmptyString then EmptyString else e
  | None => EmptyString
  end.

Definition failed (t : Thrown) : list (string * Js.Value) :=
  [("success", Js.Bool false);
   ("error", Js.Text (messageOr "Unknown error occurred" t))].

(** [analyzeSkinImage]: [inl] when it throws, [inr] the object it resolves
    to. The request only feeds the form data sent by [fetch]. *)
Definition analyzeSkinImage (env : option string) (fetched : Fetched)
    : Thrown + list (string * Js.Value) :=
  if String.eqb (BACKEND_ENDPOINT env) EmptyString then
    inl (ThrownError
           "Backend endpoint not configured. Please set NEXT_PUBLIC_SKIN_BACKEND_URL environment variable.")
  else
    match fetched with
    | FetchFails t => inr (failed t)
    | Responds ok status body =>
        if negb ok then
          inr (failed (ThrownError
                         (String.append "Backend responded with status " (decimal status))))
        else
          match body with
          | BodyFails t => inr (failed t)
          | BodyIs data => inr (spreadOver [("success", Js.Bool true)] data)
          end
    end.

(** [response.field], [undefined] when absent. *)
Definition field (key : string) (response : list (string * Js.Value)) : Js.Value :=
  match Js.lookup key response with
  | Some v => v
  | None => Js.Undefined
  end.

End SkinAnalysisApi.

Section SendSnapshot.
Import SkinAnalysisApi.

(** [String(v)], as template literals and [new Error(v)] apply it. *)
Variable toText : Js.Value -> string.






(** The value of [success] that the caller of [analyzeSkinImage] sees for
    a parsed body: the body's own, or [true]. *)
Definition bodySucceeds (data : Js.Value) : bool :=
  match Js.lookup "success" (ownFields data) with
  | Some v => Js.truthy v
  | None => true
  end.

End SendSnapshot.

(** ** File names of captures *)

Module FileName.

(** [s.replace(/[...]/g, sub)] for a class of single characters. *)
Fixpoint replaceAll (hit : Ascii.ascii -> bool) (sub : Ascii.ascii) (s : string) : string :=
  match s with
  | EmptyString => EmptyString
  | String c rest => String (if hit c then sub else c) (replaceAll hit sub rest)
  end.

Definition isColonOrDot (c : Ascii.ascii) : bool :=
  Ascii.eqb c ":"%char || Ascii.eqb c "."%char.

(** [generateImageFilename], given what [new Date().toISOString()] and
    [Math.random().toString(36)] return. *)
Definition generateImageFilename (isoString random36 : string) : string :=
  let timestamp := replaceAll isColonOrDot "-"%char isoString in
  let randomId := String.substring 2 7 random36 in
  String.append "face-capture-"
    (String.append timestamp
       (String.append "-" (String.append randomId ".png"))).

Fixpoint allChars (p : Ascii.ascii -> bool) (s : string) : bool :=
  match s with
  | EmptyString => true
  | String c rest => p c && allChars p rest
  end.

Fixpoint countChar (c : Ascii.ascii) (s : string) : nat :=
  match s with
  | EmptyString => 0
  | String d rest => (if Ascii.eqb d c then 1 else 0) + countChar c rest
  end.

Definition isDigit (c : Ascii.ascii) : bool :=
  (48 <=? Ascii.nat_of_ascii c)%nat && (Ascii.nat_of_ascii c <=? 57)%nat.
Definition isLower (c : Ascii.ascii) : bool :=
  (97 <=? Ascii.nat_of_ascii c)%nat && (Ascii.nat_of_ascii c <=? 122)%nat.
Definition isUpper (c : Ascii.ascii) : bool :=
  (65 <=? Ascii.nat_of_ascii c)%nat && (Ascii.nat_of_ascii c <=? 90)%nat.

(** The characters of an ISO 8601 time stamp. *)
Definition isoChar (c : Ascii.ascii) : bool :=
  isDigit c || Ascii.eqb c "T"%char || Ascii.eqb c "Z"%char || Ascii.eqb c "-"%char ||
  Ascii.eqb c "+"%char || Ascii.eqb c ":"%char || Ascii.eqb c "."%char.

(** The digits of base 36. *)
Definition base36Char (c : Ascii.ascii) : bool := isDigit c || isLower c.

(** Letters, digits, hyphen and plus. *)
Definition plainChar (c : Ascii.ascii) : bool :=
  isDigit c || isLower c || isUpper c || Ascii.eqb c "-"%char || Ascii.eqb c "+"%char.

End FileName.

(** ** Order facts on binary64 values *)

Local Open Scope float_scope.

Section SpecFloatOrder.

Lemma SFleb_trans (a b c : spec_float) :
  SFleb a b = true -> SFleb b c = true -> SFleb a c = true.
Proof.
  unfold SFleb.
  destruct a as [sa|sa| |sa ma ea], b as [sb|sb| |sb mb eb], c as [sc|sc| |sc mc ec];
    try destruct sa; try destruct sb; try destruct sc; cbn;
    try discriminate; try reflexivity.
  - (* three negative finite values *)
    destruct (Z.compare_spec ea eb), (Z.compare_spec eb ec); subst;
      try discriminate; intros Hab Hbc.
    + rewrite Z.compare_refl.
      change (Pos.compare_cont Eq) with Pos.compare in *.
      destruct (Pos.compare_spec ma mb), (Pos.compare_spec mb mc),
        (Pos.compare_spec ma mc); subst; cbn in *;
        try discriminate; try reflexivity; lia.
    + destruct (Z.compare_spec eb ec); try lia; reflexivity.
    + destruct (Z.compare_spec ea ec); try lia; reflexivity.
    + destruct (Z.compare_spec ea ec); try lia; reflexivity.
  - (* three positive finite values *)
    destruct (Z.compare_spec ea eb), (Z.compare_spec eb ec); subst;
      try discriminate; intros Hab Hbc.
    + rewrite Z.compare_refl.
      change (Pos.compare_cont Eq) with Pos.compare in *.
      destruct (Pos.compare_spec ma mb), (Pos.compare_spec mb mc),
        (Pos.compare_spec ma mc); subst; cbn in *;
        try discriminate; try reflexivity; lia.
    + destruct (Z.compare_spec eb ec); try lia; reflexivity.
    + destruct (Z.compare_spec ea ec); try lia; reflexivity.
    + destruct (Z.compare_spec ea ec); try lia; reflexivity.
Qed.

End SpecFloatOrder.

Lemma leb_trans (a b c : float) :
  (a <=? b) = true -> (b <=? c) = true -> (a <=? c) = true.
Proof. rewrite !leb_spec. apply SFleb_trans. Qed.

Lemma geb_weaken (lo hi w : float) :
  (lo <=? hi) = true -> geb w hi = true -> geb w lo = true.
Proof. unfold geb. intros Hlo Hw. exact (leb_trans lo hi w Hlo Hw). Qed.

Lemma verdictOfBounds_aligned_close (b : Bounds) :
  isAligned (verdictOfBounds b) = true -> isClose (verdictOfBounds b) = true.
Proof.
  unfold verdictOfBounds; cbn [isAligned isClose].
  rewrite !andb_true_iff. intros [[[Hw Hh] _] _]. split.
  - apply (geb_weaken _ ALIGNMENT_TARGET.minWidth); [reflexivity | exact Hw].
  - apply (geb_weaken _ ALIGNMENT_TARGET.minHeight); [reflexivity | exact Hh].
Qed.

Lemma evaluateAlignment_cases (lm : LandmarkSet) :
  evaluateAlignment lm = rejected \/
  evaluateAlignment lm = verdictOfBounds (fold_left scanPoint lm emptyBounds).
Proof.
  unfold evaluateAlignment. destruct lm as [|p lm]; [now left|].
  match goal with |- context [if ?c then _ else _] => destruct c end;
    [now left | now right].
Qed.

Lemma aligned_is_close (lm : LandmarkSet) :
  isAligned (evaluateAlignment lm) = true -> isClose (evaluateAlignment lm) = true.
Proof.
  destruct (evaluateAlignment_cases lm) as [E|E]; rewrite E.
  - discriminate.
  - apply verdictOfBounds_aligned_close.
Qed.

(** *** Transport of the JavaScript helpers to [spec_float] *)

Lemma SFcompare_refl (x : spec_float) :
  SF.is_nan x = false -> SFcompare x x = Some Eq.
Proof.
  destruct x as [s|s| |s m e]; try destruct s; cbn;
    try discriminate; try reflexivity; intros _;
    rewrite Z.compare_refl; change (Pos.compare_cont Eq) with Pos.compare;
    rewrite Pos.compare_refl; reflexivity.
Qed.

Lemma SFcompare_antisym (x y : spec_float) :
  SFcompare y x = option_map CompOpp (SFcompare x y).
Proof.
  destruct x as [sx|sx| |sx mx ex], y as [sy|sy| |sy my ey];
    try destruct sx; try destruct sy; cbn; try reflexivity;
    rewrite (Z.compare_antisym ex ey);
    change (Pos.compare_cont Eq) with Pos.compare;
    rewrite (Pos.compare_antisym mx my);
    destruct (Z.compare ex ey); cbn; try reflexivity;
    destruct (Pos.compare mx my); reflexivity.
Qed.

Lemma is_nan_spec (a : float) : PrimFloat.is_nan a = SF.is_nan (Prim2SF a).
Proof.
  unfold PrimFloat.is_nan. rewrite eqb_spec. unfold SFeqb.
  destruct (Prim2SF a) as [s|s| |s m e] eqn:E; try reflexivity.
  - destruct s; reflexivity.
  - rewrite SFcompare_refl; reflexivity.
Qed.

Lemma is_finite_spec (a : float) : PrimFloat.is_finite a = SF.is_finite (Prim2SF a).
Proof.
  unfold PrimFloat.is_finite, is_infinity. rewrite is_nan_spec, eqb_spec, abs_spec.
  change (Prim2SF infinity) with (S754_infinity false).
  destruct (Prim2SF a) as [s|s| |s m e]; reflexivity.
Qed.

Lemma isNegZero_spec (a : float) : isNegZero a = SF.is_neg_zero (Prim2SF a).
Proof.
  unfold isNegZero. rewrite classify_spec. unfold SF64classify, SFclassify.
  destruct (Prim2SF a) as [s|s| |s m e]; try destruct s; cbn; try reflexivity;
    match goal with |- context [if ?c then _ else _] => destruct c end; reflexivity.
Qed.

Lemma Math_min_spec (a b : float) :
  Prim2SF (Math_min a b) = SF.min (Prim2SF a) (Prim2SF b).
Proof.
  unfold Math_min, SF.min.
  rewrite !is_nan_spec, !ltb_spec, isNegZero_spec. unfold SFltb.
  rewrite (SFcompare_antisym (Prim2SF a) (Prim2SF b)).
  destruct (Prim2SF a) as [sa|sa| |sa ma ea] eqn:Ea,
           (Prim2SF b) as [sb|sb| |sb mb eb] eqn:Eb;
    try destruct sa; try destruct sb; cbn; try reflexivity; try assumption;
    destruct (Z.compare ea eb); cbn; try assumption;
    destruct (Pos.compare_cont Eq ma mb); cbn; assumption.
Qed.

Lemma Math_max_spec (a b : float) :
  Prim2SF (Math_max a b) = SF.max (Prim2SF a) (Prim2SF b).
Proof.
  unfold Math_max, SF.max.
  rewrite !is_nan_spec, !ltb_spec, isNegZero_spec. unfold SFltb.
  rewrite (SFcompare_antisym (Prim2SF a) (Prim2SF b)).
  destruct (Prim2SF a) as [sa|sa| |sa ma ea] eqn:Ea,
           (Prim2SF b) as [sb|sb| |sb mb eb] eqn:Eb;
    try destruct sa; try destruct sb; cbn; try reflexivity; try assumption;
    destruct (Z.compare ea eb); cbn; try assumption;
    destruct (Pos.compare_cont Eq ma mb); cbn; assumption.
Qed.

(** *** Finite arguments of [Math.min] and [Math.max] *)

Ltac sf_finite_pair ea eb ma mb :=
  destruct (Z.compare ea eb); cbn; try reflexivity; try discriminate;
  destruct (Pos.compare_cont Eq ma mb); cbn; try reflexivity; try discriminate.

Lemma SFmin_finite (x y : spec_float) :
  SF.is_finite x = true -> SF.is_finite y = true -> SF.is_finite (SF.min x y) = true.
Proof.
  unfold SF.min.
  destruct x as [sx|sx| |sx mx ex], y as [sy|sy| |sy my ey];
    try destruct sx; try destruct sy; cbn; try discriminate; try reflexivity;
    intros _ _; sf_finite_pair ex ey mx my.
Qed.

Lemma SFmax_finite (x y : spec_float) :
  SF.is_finite x = true -> SF.is_finite y = true -> SF.is_finite (SF.max x y) = true.
Proof.
  unfold SF.max.
  destruct x as [sx|sx| |sx mx ex], y as [sy|sy| |sy my ey];
    try destruct sx; try destruct sy; cbn; try discriminate; try reflexivity;
    intros _ _; sf_finite_pair ex ey mx my.
Qed.

Lemma Math_min_finite (a b : float) :
  is_finite a = true -> is_finite b = true -> is_finite (Math_min a b) = true.
Proof. rewrite !is_finite_spec, Math_min_spec. apply SFmin_finite. Qed.

Lemma Math_max_finite (a b : float) :
  is_finite a = true -> is_finite b = true -> is_finite (Math_max a b) = true.
Proof. rewrite !is_finite_spec, Math_max_spec. apply SFmax_finite. Qed.

Lemma Math_min_infinity (a : float) :
  is_finite a = true -> Math_min infinity a = a.
Proof.
  rewrite is_finite_spec. intros H. apply Prim2SF_inj. rewrite Math_min_spec.
  change (Prim2SF infinity) with (S754_infinity false).
  destruct (Prim2SF a) as [s|s| |s m e]; try discriminate; reflexivity.
Qed.

Lemma Math_max_neg_infinity (a : float) :
  is_finite a = true -> Math_max neg_infinity a = a.
Proof.
  rewrite is_finite_spec. intros H. apply Prim2SF_inj. rewrite Math_max_spec.
  change (Prim2SF neg_infinity) with (S754_infinity true).
  destruct (Prim2SF a) as [s|s| |s m e]; try discriminate; reflexivity.
Qed.

(** The clamp [Math.max(0, d)] does not change a test against a positive
    threshold. *)
Lemma geb_clamp (c d : float) :
  (0 <? c)%float = true -> geb (Math_max 0 d) c = geb d c.
Proof.
  unfold geb. rewrite ltb_spec, !leb_spec, Math_max_spec.
  change (Prim2SF 0) with (S754_zero false).
  unfold SFltb, SFleb, SF.max.
  destruct (Prim2SF c) as [sc|sc| |sc mc ec], (Prim2SF d) as [sd|sd| |sd md ed];
    try destruct sc; try destruct sd; cbn; try discriminate; reflexivity.
Qed.

(** *** A non-finite coordinate spoils the bounds for good *)

Lemma stuckLow_min (m a : float) :
  stuckLow m = true -> stuckLow (Math_min m a) = true.
Proof.
  unfold stuckLow. rewrite Math_min_spec. unfold SF.min.
  destruct (Prim2SF m) as [sm|sm| |sm mm em], (Prim2SF a) as [sa|sa| |sa ma ea];
    try destruct sm; try destruct sa; cbn; try discriminate; reflexivity.
Qed.

Lemma stuckHigh_max (m a : float) :
  stuckHigh m = true -> stuckHigh (Math_max m a) = true.
Proof.
  unfold stuckHigh. rewrite Math_max_spec. unfold SF.max.
  destruct (Prim2SF m) as [sm|sm| |sm mm em], (Prim2SF a) as [sa|sa| |sa ma ea];
    try destruct sm; try destruct sa; cbn; try discriminate; reflexivity.
Qed.

Lemma not_finite_sticks (lo hi a : float) :
  is_finite a = false ->
  stuckLow (Math_min lo a) || stuckHigh (Math_max hi a) = true.
Proof.
  unfold stuckLow, stuckHigh. rewrite is_finite_spec, Math_min_spec, Math_max_spec.
  unfold SF.min, SF.max.
  destruct (Prim2SF a) as [sa|sa| |sa ma ea]; try discriminate; intros _.
  - destruct sa.
    + destruct (Prim2SF lo) as [s|s| |s m e]; try destruct s; cbn; reflexivity.
    + destruct (Prim2SF hi) as [s|s| |s m e]; try destruct s; cbn;
        rewrite ?orb_true_r; reflexivity.
  - destruct (Prim2SF lo) as [s|s| |s m e]; reflexivity.
Qed.

Lemma stuckLow_not_finite (m : float) : stuckLow m = true -> is_finite m = false.
Proof.
  unfold stuckLow. rewrite is_finite_spec.
  destruct (Prim2SF m) as [s|s| |s mm e]; try destruct s; try discriminate; reflexivity.
Qed.

Lemma stuckHigh_not_finite (m : float) : stuckHigh m = true -> is_finite m = false.
Proof.
  unfold stuckHigh. rewrite is_finite_spec.
  destruct (Prim2SF m) as [s|s| |s mm e]; try destruct s; try discriminate; reflexivity.
Qed.

Lemma tainted_extend (b : Bounds) (p : float * float) :
  tainted b = true -> tainted (extendPair b p) = true.
Proof.
  unfold tainted, extendPair, extend; cbn [minX maxX minY maxY].
  rewrite !orb_true_iff. intros [[[H|H]|H]|H].
  - left; left; left. now apply stuckLow_min.
  - left; left; right. now apply stuckHigh_max.
  - left; right. now apply stuckLow_min.
  - right. now apply stuckHigh_max.
Qed.

Lemma tainted_by_pair (b : Bounds) (p : float * float) :
  finitePair p = false -> tainted (extendPair b p) = true.
Proof.
  unfold finitePair, tainted, extendPair, extend; cbn [minX maxX minY maxY].
  rewrite andb_false_iff. intros [H|H].
  - pose proof (not_finite_sticks (minX b) (maxX b) _ H) as T.
    apply orb_true_iff in T. rewrite !orb_true_iff. tauto.
  - pose proof (not_finite_sticks (minY b) (maxY b) _ H) as T.
    apply orb_true_iff in T. rewrite !orb_true_iff. tauto.
Qed.

Lemma tainted_fold (pts : list (float * float)) (b : Bounds) :
  tainted b = true -> tainted (fold_left extendPair pts b) = true.
Proof.
  revert b. induction pts as [|p pts IH]; intros b H; cbn; [exact H|].
  apply IH. now apply tainted_extend.
Qed.

Lemma tainted_by_fold (pts : list (float * float)) (b : Bounds) :
  forallb finitePair pts = false -> tainted (fold_left extendPair pts b) = true.
Proof.
  revert b. induction pts as [|p pts IH]; intros b H; cbn in *; [discriminate|].
  apply andb_false_iff in H. destruct H as [H|H].
  - apply tainted_fold. now apply tainted_by_pair.
  - now apply IH.
Qed.

Lemma tainted_not_finite (b : Bounds) :
  tainted b = true ->
  negb (Number_isFinite (minX b)) || negb (Number_isFinite (maxX b)) ||
  negb (Number_isFinite (minY b)) || negb (Number_isFinite (maxY b)) = true.
Proof.
  unfold tainted, Number_isFinite. rewrite !orb_true_iff. intros [[[H|H]|H]|H].
  - left; left; left. now rewrite (stuckLow_not_finite _ H).
  - left; left; right. now rewrite (stuckHigh_not_finite _ H).
  - left; right. now rewrite (stuckLow_not_finite _ H).
  - right. now rewrite (stuckHigh_not_finite _ H).
Qed.

(** *** The loop of [evaluateAlignment] against the contract *)

Lemma scan_numericPairs (lm : LandmarkSet) (b : Bounds) :
  fold_left scanPoint lm b = fold_left extendPair (numericPairs lm) b.
Proof.
  revert b. induction lm as [|p lm IH]; intros b; [reflexivity|].
  destruct p as [[[px|] [py|]]|]; cbn; apply IH.
Qed.

Lemma finite_extend (b : Bounds) (p : float * float) :
  boundsFinite b = true -> finitePair p = true -> boundsFinite (extendPair b p) = true.
Proof.
  unfold boundsFinite, finitePair, extendPair, extend, Number_isFinite;
    cbn [minX maxX minY maxY].
  rewrite !andb_true_iff. intros [[[H1 H2] H3] H4] [Hx Hy].
  repeat split; auto using Math_min_finite, Math_max_finite.
Qed.

Lemma finite_fold (pts : list (float * float)) (b : Bounds) :
  boundsFinite b = true -> forallb finitePair pts = true ->
  boundsFinite (fold_left extendPair pts b) = true.
Proof.
  revert b. induction pts as [|p pts IH]; intros b Hb H; cbn in *; [exact Hb|].
  apply andb_true_iff in H. destruct H as [Hp H].
  apply IH; [now apply finite_extend | exact H].
Qed.

Lemma extend_emptyBounds (px py : float) :
  finitePair (px, py) = true ->
  extendPair emptyBounds (px, py) = {| minX := px; maxX := px; minY := py; maxY := py |}.
Proof.
  unfold finitePair, extendPair, extend, emptyBounds; cbn [fst snd minX maxX minY maxY].
  rewrite andb_true_iff. intros [Hx Hy].
  now rewrite !Math_min_infinity, !Math_max_neg_infinity.
Qed.

Lemma filter_all {A} (f : A -> bool) (l : list A) :
  forallb f l = true -> filter f l = l.
Proof.
  induction l as [|a l IH]; cbn; [reflexivity|].
  rewrite andb_true_iff. intros [Ha Hl]. now rewrite Ha, IH.
Qed.

Lemma verdictOfBounds_spec (b : Bounds) : verdictOfBounds b = verdict_spec b.
Proof.
  unfold verdictOfBounds, verdict_spec, Math_abs.
  unfold ALIGNMENT_TARGET.nearWidth, ALIGNMENT_TARGET.nearHeight,
    ALIGNMENT_TARGET.minWidth, ALIGNMENT_TARGET.minHeight,
    ALIGNMENT_TARGET.centerToleranceX, ALIGNMENT_TARGET.centerToleranceY,
    ALIGNMENT_TARGET.targetCenterY.
  now rewrite !geb_clamp by reflexivity.
Qed.

Lemma boundsFinite_passes (b : Bounds) :
  boundsFinite b = true ->
  negb (Number_isFinite (minX b)) || negb (Number_isFinite (maxX b)) ||
  negb (Number_isFinite (minY b)) || negb (Number_isFinite (maxY b)) = false.
Proof.
  unfold boundsFinite. rewrite !andb_true_iff. intros [[[H1 H2] H3] H4].
  now rewrite H1, H2, H3, H4.
Qed.

Lemma evaluateAlignment_scan (lm : LandmarkSet) :
  evaluateAlignment lm =
  let b := fold_left extendPair (numericPairs lm) emptyBounds in
  if negb (Number_isFinite (minX b)) || negb (Number_isFinite (maxX b)) ||
     negb (Number_isFinite (minY b)) || negb (Number_isFinite (maxY b))
  then rejected else verdictOfBounds b.
Proof.
  unfold evaluateAlignment. destruct lm as [|p lm]; [reflexivity|].
  now rewrite scan_numericPairs.
Qed.

Lemma evaluateAlignment_refines (lm : LandmarkSet) :
  evaluateAlignment lm =
  if forallb finitePair (numericPairs lm) then evaluateAlignment_spec lm else rejected.
Proof.
  rewrite evaluateAlignment_scan. cbv zeta.
  destruct (forallb finitePair (numericPairs lm)) eqn:F.
  - unfold evaluateAlignment_spec, finitePairs. rewrite (filter_all _ _ F).
    destruct (numericPairs lm) as [|[px py] pts]; [reflexivity|].
    cbn in F. apply andb_true_iff in F. destruct F as [Fp F].
    cbn [fold_left boundingBox]. rewrite (extend_emptyBounds _ _ Fp).
    assert (B : boundsFinite
                  (fold_left extendPair pts
                     {| minX := px; maxX := px; minY := py; maxY := py |}) = true).
    { apply finite_fold; [|exact F].
      unfold finitePair in Fp; cbn in Fp. apply andb_true_iff in Fp.
      destruct Fp as [Hx Hy]. unfold boundsFinite, Number_isFinite; cbn.
      now rewrite Hx, Hy. }
    rewrite (boundsFinite_passes _ B). apply verdictOfBounds_spec.
  - now rewrite (tainted_not_finite _ (tainted_by_fold _ emptyBounds F)).
Qed.

(** *** [boundingBox] is the bounding box *)

Lemma SFcompare_None (x y : spec_float) :
  SFcompare x y = None -> SF.is_nan x = true \/ SF.is_nan y = true.
Proof.
  destruct x as [sx|sx| |sx mx ex], y as [sy|sy| |sy my ey];
    try destruct sx; try destruct sy; cbn; try discriminate; auto.
Qed.

Lemma SFleb_refl (x : spec_float) : SF.is_nan x = false -> SFleb x x = true.
Proof. intros H. unfold SFleb. now rewrite SFcompare_refl. Qed.

Lemma SFeqb_leb (x y : spec_float) :
  SFeqb x y = true <-> SFleb x y = true /\ SFleb y x = true.
Proof.
  unfold SFeqb, SFleb. rewrite (SFcompare_antisym x y).
  destruct (SFcompare x y) as [[| |]|]; cbn; intuition discriminate.
Qed.

Section MinMaxOrder.
Variables x y : spec_float.
Hypothesis Hx : SF.is_nan x = false.
Hypothesis Hy : SF.is_nan y = false.

Lemma SFcompare_Some : exists c, SFcompare x y = Some c.
Proof.
  destruct (SFcompare x y) as [c|] eqn:C; [now exists c|].
  destruct (SFcompare_None _ _ C); congruence.
Qed.

Lemma SFmin_le_l : SFleb (SF.min x y) x = true.
Proof.
  destruct SFcompare_Some as [c C]. unfold SF.min. rewrite C.
  destruct c; [destruct (SF.is_neg_zero x)| |]; try now apply SFleb_refl.
  all: unfold SFleb; rewrite (SFcompare_antisym x y), C; reflexivity.
Qed.

Lemma SFmin_le_r : SFleb (SF.min x y) y = true.
Proof.
  destruct SFcompare_Some as [c C]. unfold SF.min. rewrite C.
  destruct c; [destruct (SF.is_neg_zero x)| |]; try now apply SFleb_refl.
  all: unfold SFleb; rewrite C; reflexivity.
Qed.

Lemma SFmax_ge_l : SFleb x (SF.max x y) = true.
Proof.
  destruct SFcompare_Some as [c C]. unfold SF.max. rewrite C.
  destruct c; [destruct (SF.is_neg_zero x)| |]; try now apply SFleb_refl.
  all: unfold SFleb; rewrite C; reflexivity.
Qed.

Lemma SFmax_ge_r : SFleb y (SF.max x y) = true.
Proof.
  destruct SFcompare_Some as [c C]. unfold SF.max. rewrite C.
  destruct c; [destruct (SF.is_neg_zero x)| |]; try now apply SFleb_refl.
  all: unfold SFleb; rewrite (SFcompare_antisym x y), C; reflexivity.
Qed.

Lemma SFmin_is : SFeqb (SF.min x y) x = true \/ SFeqb (SF.min x y) y = true.
Proof.
  destruct SFcompare_Some as [c C]. unfold SF.min. rewrite C.
  destruct c; [destruct (SF.is_neg_zero x)| |].
  - left. unfold SFeqb. now rewrite SFcompare_refl.
  - right. unfold SFeqb. now rewrite SFcompare_refl.
  - left. unfold SFeqb. now rewrite SFcompare_refl.
  - right. unfold SFeqb. now rewrite SFcompare_refl.
Qed.

Lemma SFmax_is : SFeqb (SF.max x y) x = true \/ SFeqb (SF.max x y) y = true.
Proof.
  destruct SFcompare_Some as [c C]. unfold SF.max. rewrite C.
  destruct c; [destruct (SF.is_neg_zero x)| |].
  - right. unfold SFeqb. now rewrite SFcompare_refl.
  - left. unfold SFeqb. now rewrite SFcompare_refl.
  - right. unfold SFeqb. now rewrite SFcompare_refl.
  - left. unfold SFeqb. now rewrite SFcompare_refl.
Qed.
End MinMaxOrder.

Lemma finite_not_nan (a : float) : is_finite a = true -> SF.is_nan (Prim2SF a) = false.
Proof. rewrite is_finite_spec. now destruct (Prim2SF a). Qed.

Lemma eqb_trans (a b c : float) :
  (a =? b)%float = true -> (b =? c)%float = true -> (a =? c)%float = true.
Proof.
  rewrite !eqb_spec, !SFeqb_leb. intros [H1 H2] [H3 H4].
  split; eauto using SFleb_trans.
Qed.

Lemma eqb_refl_finite (a : float) : is_finite a = true -> (a =? a)%float = true.
Proof.
  intros H. rewrite eqb_spec. unfold SFeqb.
  now rewrite SFcompare_refl by now apply finite_not_nan.
Qed.

Lemma leb_refl_finite (a : float) : is_finite a = true -> (a <=? a)%float = true.
Proof. intros H. rewrite leb_spec. now apply SFleb_refl, finite_not_nan. Qed.

Section FiniteMinMax.
Variables a b : float.
Hypothesis Ha : is_finite a = true.
Hypothesis Hb : is_finite b = true.

Let na := finite_not_nan a Ha.
Let nb := finite_not_nan b Hb.

Lemma Math_min_le_l : (Math_min a b <=? a)%float = true.
Proof. rewrite leb_spec, Math_min_spec. now apply SFmin_le_l. Qed.
Lemma Math_min_le_r : (Math_min a b <=? b)%float = true.
Proof. rewrite leb_spec, Math_min_spec. now apply SFmin_le_r. Qed.
Lemma Math_max_ge_l : (a <=? Math_max a b)%float = true.
Proof. rewrite leb_spec, Math_max_spec. now apply SFmax_ge_l. Qed.
Lemma Math_max_ge_r : (b <=? Math_max a b)%float = true.
Proof. rewrite leb_spec, Math_max_spec. now apply SFmax_ge_r. Qed.
Lemma Math_min_is :
  (Math_min a b =? a)%float = true \/ (Math_min a b =? b)%float = true.
Proof. rewrite !eqb_spec, Math_min_spec. now apply SFmin_is. Qed.
Lemma Math_max_is :
  (Math_max a b =? a)%float = true \/ (Math_max a b =? b)%float = true.
Proof. rewrite !eqb_spec, Math_max_spec. now apply SFmax_is. Qed.
End FiniteMinMax.

Lemma encloses_single (px py : float) :
  finitePair (px, py) = true ->
  encloses {| minX := px; maxX := px; minY := py; maxY := py |} [(px, py)].
Proof.
  unfold finitePair; cbn [fst snd]. rewrite andb_true_iff. intros [Hx Hy].
  unfold encloses; cbn [minX maxX minY maxY].
  split; [|repeat split; exists (px, py); (split; [now left|]);
            cbn [fst snd]; now apply eqb_refl_finite].
  intros p [<-|[]]; cbn [fst snd]. auto using leb_refl_finite.
Qed.

Lemma encloses_extend (b : Bounds) (seen : list (float * float)) (p : float * float) :
  boundsFinite b = true -> finitePair p = true ->
  encloses b seen -> encloses (extendPair b p) (seen ++ [p]).
Proof.
  unfold boundsFinite, Number_isFinite, finitePair. rewrite !andb_true_iff.
  intros [[[F1 F2] F3] F4] [Fx Fy] (Hall & (q1 & I1 & E1) & (q2 & I2 & E2)
                                       & (q3 & I3 & E3) & (q4 & I4 & E4)).
  unfold encloses, extendPair, extend; cbn [minX maxX minY maxY].
  split; [|repeat split].
  - intros q Hq. apply in_app_iff in Hq. destruct Hq as [Hq|[<-|[]]].
    + destruct (Hall q Hq) as (L1 & L2 & L3 & L4). repeat split.
      * eapply leb_trans; [apply Math_min_le_l|]; eauto.
      * eapply leb_trans; [|apply Math_max_ge_l]; eauto.
      * eapply leb_trans; [apply Math_min_le_l|]; eauto.
      * eapply leb_trans; [|apply Math_max_ge_l]; eauto.
    + repeat split; auto using Math_min_le_r, Math_max_ge_r.
  - destruct (Math_min_is (minX b) (fst p) F1 Fx) as [E|E].
    + exists q1. split; [apply in_app_iff; now left | eauto using eqb_trans].
    + exists p. split; [apply in_app_iff; right; now left | exact E].
  - destruct (Math_max_is (maxX b) (fst p) F2 Fx) as [E|E].
    + exists q2. split; [apply in_app_iff; now left | eauto using eqb_trans].
    + exists p. split; [apply in_app_iff; right; now left | exact E].
  - destruct (Math_min_is (minY b) (snd p) F3 Fy) as [E|E].
    + exists q3. split; [apply in_app_iff; now left | eauto using eqb_trans].
    + exists p. split; [apply in_app_iff; right; now left | exact E].
  - destruct (Math_max_is (maxY b) (snd p) F4 Fy) as [E|E].
    + exists q4. split; [apply in_app_iff; now left | eauto using eqb_trans].
    + exists p. split; [apply in_app_iff; right; now left | exact E].
Qed.

Lemma encloses_fold (rest seen : list (float * float)) (b : Bounds) :
  boundsFinite b = true -> forallb finitePair rest = true ->
  encloses b seen -> encloses (fold_left extendPair rest b) (seen ++ rest).
Proof.
  revert seen b. induction rest as [|p rest IH]; intros seen b Hb Hf He; cbn.
  - now rewrite app_nil_r.
  - cbn in Hf. apply andb_true_iff in Hf. destruct Hf as [Hp Hf].
    replace (seen ++ p :: rest)%list with ((seen ++ [p]) ++ rest)%list
      by (rewrite <- app_assoc; reflexivity).
    apply IH; auto using finite_extend, encloses_extend.
Qed.

Lemma finitePairs_all (lm : LandmarkSet) : forallb finitePair (finitePairs lm) = true.
Proof.
  unfold finitePairs. induction (numericPairs lm) as [|p l IH]; cbn; [reflexivity|].
  destruct (finitePair p) eqn:E; cbn; [now rewrite E|exact IH].
Qed.

Lemma boundingBox_encloses (pts : list (float * float)) (b : Bounds) :
  forallb finitePair pts = true -> boundingBox pts = Some b -> encloses b pts.
Proof.
  destruct pts as [|[px py] rest]; cbn; [discriminate|].
  rewrite andb_true_iff. intros [Hp Hr] [= <-].
  apply (encloses_fold rest [(px, py)]); auto using encloses_single.
  unfold finitePair in Hp; cbn in Hp. apply andb_true_iff in Hp. destruct Hp as [Hx Hy].
  unfold boundsFinite, Number_isFinite; cbn. now rewrite Hx, Hy.
Qed.

(** ** The state machine keeps its invariant *)

Local Open Scope Z_scope.

Arguments evaluateAlignment : simpl never.

Ltac zb :=
  repeat match goal with
         | H : (_ || _) = false |- _ => apply orb_false_iff in H; destruct H
         | H : (_ >? _) = _ |- _ => rewrite Z.gtb_ltb in H
         | H : (_ >=? _) = _ |- _ => rewrite Z.geb_leb in H
         | H : (_ <? _) = true |- _ => apply Z.ltb_lt in H
         | H : (_ <? _) = false |- _ => apply Z.ltb_ge in H
         | H : (_ <=? _) = true |- _ => apply Z.leb_le in H
         | H : (_ <=? _) = false |- _ => apply Z.leb_gt in H
         end.

Ltac split_ifs :=
  repeat match goal with
         | |- context [if ?c then _ else _] => destruct c eqn:?
         end.

Ltac walk_ifs :=
  repeat (cbn in *;
          match goal with
          | |- context [if ?c then _ else _] => destruct c eqn:?
          end);
  cbn in *.

Ltac unfold_machine :=
  unfold renderLoop, detectAndUpdate, stampStart, applyDetection, guideFrame,
    lockedFrame, trackingLost, revertToGuide, stopCamera, startCamera, skipped, paints,
    MAX_MISS_COUNT, DISENGAGE_FRAME_LIMIT, CLOSE_UNLOCK_FRAMES, AUTO_CAPTURE_FRAMES in *.

Ltac inv_goal :=
  constructor; unfold machineReset, phase,
    MAX_MISS_COUNT, DISENGAGE_FRAME_LIMIT, CLOSE_UNLOCK_FRAMES, AUTO_CAPTURE_FRAMES in *;
  cbn in *; intros; zb;
  repeat match goal with
         | H : true = true -> _ |- _ => specialize (H eq_refl)
         | H : false = false -> _ |- _ => specialize (H eq_refl)
         | H : true = false -> _ |- _ => clear H
         | H : false = true -> _ |- _ => clear H
         end;
  try discriminate; intuition (try discriminate; try congruence; try lia).

Lemma Inv_initial : Inv initialRefs.
Proof. inv_goal. Qed.

Lemma Inv_stopCamera (s : Refs) : Inv s -> Inv (stopCamera s).
Proof.
  intros [Hoff Hl Ha Hg Hb]. destruct s. unfold_machine. cbn in *.
  split_ifs; inv_goal.
Qed.

Lemma Inv_startCamera (o : StartOutcome) (s : Refs) : Inv s -> Inv (startCamera o s).
Proof.
  intros [Hoff Hl Ha Hg Hb]. destruct s, o. all: unfold_machine; unfold stopCamera; cbn in *.
  all: split_ifs; inv_goal.
Qed.

Lemma Inv_applyDetection (t : float) (r : option FaceList) (s : Refs) :
  Inv s -> isCameraOn s = true -> Inv (fst (applyDetection t r s)).
Proof.
  intros [Hoff Hl Ha Hg Hb] Hon.
  destruct s as [on st ll mc an dc cc started hl latch ac msg].
  cbn in Hon; subst on.
  destruct r as [[|[face|] faces]|]; unfold_machine; cbn in *.
  all: try (destruct (evaluateAlignment face) as [al cl]; cbn).
  all: destruct ll, started, latch, hl; cbn.
  all: split_ifs; cbn; split_ifs; cbn.
  all: inv_goal.
Qed.

Lemma Inv_stampStart (t : float) (s : Refs) :
  Inv s -> isCameraOn s = true ->
  Inv (stampStart t s) /\ isCameraOn (stampStart t s) = true.
Proof.
  intros [Hoff Hl Ha Hg Hb] Hon. unfold stampStart.
  destruct (animationStart s) eqn:E; [now split|]. split; [|exact Hon].
  destruct s; cbn in *. inv_goal.
Qed.

Lemma Inv_renderLoop (s : Refs) (f : Frame) : Inv s -> Inv (fst (renderLoop s f)).
Proof.
  intros H. unfold renderLoop.
  destruct (isCameraOn s) eqn:Hon; cbn [negb]; [|exact H].
  cbv iota.
  repeat match goal with
         | |- context [if ?c then _ else _] => destruct c; [exact H|]
         end.
  destruct (Inv_stampStart (now f) s H Hon) as [H' Hon'].
  unfold detectAndUpdate.
  destruct (detection f) as [|r]; [exact H'|].
  pose proof (Inv_applyDetection (now f) r _ H' Hon') as A.
  destruct (applyDetection (now f) r _) as [s' shots]. exact A.
Qed.

Lemma Inv_step (s : Refs) (e : Event) : Inv s -> Inv (step s e).
Proof.
  destruct e; cbn; auto using Inv_startCamera, Inv_stopCamera, Inv_renderLoop.
Qed.

Lemma Reachable_Inv (s : Refs) : Reachable s -> Inv s.
Proof. induction 1; auto using Inv_initial, Inv_step. Qed.

(** The counters stay within a few dozen, so that [Z] holds exactly the
    values the JavaScript numbers take. *)
Lemma counters_stay_small (s : Refs) :
  Reachable s ->
  0 <= missCount s <= 46 /\ 0 <= disengageCount s <= 12 /\
  0 <= closeFrameCount s <= 5 /\ 0 <= autoCaptureFrameCount s <= 60.
Proof.
  intros R. destruct (inv_bounds s (Reachable_Inv s R)) as (A & _ & B & C & D).
  unfold MAX_MISS_COUNT, DISENGAGE_FRAME_LIMIT, CLOSE_UNLOCK_FRAMES,
    AUTO_CAPTURE_FRAMES in *. lia.
Qed.

Lemma Reachable_session (es : list Event) : Reachable (session es).
Proof.
  unfold session. generalize initialRefs, reach_init.
  induction es as [|e es IH]; intros s Hs; cbn; [exact Hs|].
  apply IH. now constructor.
Qed.

(** ** One iteration, by kind of frame *)

Lemma renderLoop_reaches (s : Refs) (f : Frame) :
  isCameraOn s = true -> reachesDetection f = true ->
  renderLoop s f = detectAndUpdate f (stampStart (now f) s).
Proof.
  unfold renderLoop, reachesDetection. intros ->.
  rewrite !andb_true_iff. intros [[[[-> ->] ->] Hr] ->]. cbn.
  rewrite Z.ltb_antisym, Hr. reflexivity.
Qed.

Lemma renderLoop_off (s : Refs) (f : Frame) :
  isCameraOn s = false -> renderLoop s f = (s, skipped false).
Proof. unfold renderLoop. now intros ->. Qed.

Lemma verdictOf_Some (f : Frame) (v : AlignmentVerdict) :
  verdictOf f = Some v ->
  reachesDetection f = true /\
  exists face rest,
    detection f = DetectResult (Some (Some face :: rest)) /\ evaluateAlignment face = v.
Proof.
  unfold verdictOf. destruct (reachesDetection f); [|discriminate].
  destruct (detection f) as [|[[|[face|] rest]|]]; try discriminate.
  intros [= <-]. eauto.
Qed.

Lemma closeFrame_verdict (f : Frame) :
  closeFrame f = true -> exists v, verdictOf f = Some v /\ isClose v = true.
Proof. unfold closeFrame. destruct (verdictOf f) as [v|]; [eauto|discriminate]. Qed.

Lemma farFrame_verdict (f : Frame) :
  farFrame f = true -> exists v, verdictOf f = Some v /\ isClose v = false.
Proof.
  unfold farFrame. destruct (verdictOf f) as [v|]; [|discriminate].
  intros H. exists v. split; [reflexivity|]. now destruct (isClose v).
Qed.

Lemma emptyDetection_cases (f : Frame) :
  emptyDetection f = true ->
  reachesDetection f = true /\
  (detection f = DetectResult None \/ detection f = DetectResult (Some [])).
Proof.
  unfold emptyDetection. rewrite andb_true_iff. intros [-> H]. split; [reflexivity|].
  destruct (detection f) as [|[[|[face|] rest]|]]; try discriminate; auto.
Qed.

Lemma missingPrimary_cases (f : Frame) :
  missingPrimary f = true ->
  reachesDetection f = true /\
  exists rest, detection f = DetectResult (Some (None :: rest)).
Proof.
  unfold missingPrimary. rewrite andb_true_iff. intros [-> H]. split; [reflexivity|].
  destruct (detection f) as [|[[|[face|] rest]|]]; try discriminate; eauto.
Qed.

Lemma throwingFrame_cases (f : Frame) :
  throwingFrame f = true -> reachesDetection f = true /\ detection f = DetectThrows.
Proof.
  unfold throwingFrame. rewrite andb_true_iff. intros [-> H]. split; [reflexivity|].
  now destruct (detection f).
Qed.

(** Replaces [renderLoop s f] by its value on a frame with verdict [v]. *)
Lemma renderLoop_verdict (s : Refs) (f : Frame) (v : AlignmentVerdict) :
  isCameraOn s = true -> verdictOf f = Some v ->
  exists faces,
    renderLoop s f =
    let s0 := stampStart (now f) s |> set_lastLandmarks (Some faces) |> set_missCount 0 in
    let '(s1, shots) :=
      if negb (hasAnimationStarted s0) then (guideFrame (now f) v s0, [])
      else lockedFrame v s0 in
    (s1, {| captures := shots; rescheduled := isCameraOn s1; meshDrawn := paints s1 |}).
Proof.
  intros Hon Hv. destruct (verdictOf_Some f v Hv) as (Hr & face & rest & Hd & <-).
  exists (Some face :: rest).
  rewrite (renderLoop_reaches s f Hon Hr). unfold detectAndUpdate. rewrite Hd.
  reflexivity.
Qed.

Lemma locked_close_frame (s : Refs) (f : Frame) :
  isCameraOn s = true -> hasAnimationStarted s = true -> closeFrame f = true ->
  let s' := fst (renderLoop s f) in
  let shots := captures (snd (renderLoop s f)) in
  isCameraOn s' = true /\ hasAnimationStarted s' = true /\
  disengageCount s' = 0 /\
  (hasAutoCaptured s = false ->
     autoCaptureFrameCount s' = autoCaptureFrameCount s + 1 /\
     hasAutoCaptured s' = (autoCaptureFrameCount s' >=? AUTO_CAPTURE_FRAMES) /\
     shots = if autoCaptureFrameCount s' >=? AUTO_CAPTURE_FRAMES then [true] else []) /\
  (hasAutoCaptured s = true ->
     autoCaptureFrameCount s' = autoCaptureFrameCount s /\
     hasAutoCaptured s' = true /\ shots = []).
Proof.
  intros Hon Hlk Hc. destruct (closeFrame_verdict f Hc) as (v & Hv & Hcl).
  destruct (renderLoop_verdict s f v Hon Hv) as [faces ->].
  destruct v as [al cl]. cbn in Hcl. subst cl.
  destruct s as [on st ll mc an dc cc started hl latch ac msg]. cbn in Hon, Hlk. subst.
  unfold_machine. destruct an, latch; walk_ifs; intuition congruence.
Qed.

(** *** The capture latch *)

Lemma latched_applyDetection (t : float) (r : option FaceList) (s : Refs) :
  hasAutoCaptured s = true ->
  hasAutoCaptured (fst (applyDetection t r s)) = true /\ snd (applyDetection t r s) = [].
Proof.
  intros H. destruct s as [on st ll mc an dc cc started hl latch ac msg].
  cbn in H; subst latch.
  destruct r as [[|[face|] faces]|]; unfold_machine; cbn.
  all: try (destruct (evaluateAlignment face) as [al cl]).
  all: destruct ll; walk_ifs; auto.
Qed.

Lemma latched_renderLoop (s : Refs) (f : Frame) :
  hasAutoCaptured s = true ->
  hasAutoCaptured (fst (renderLoop s f)) = true /\ captures (snd (renderLoop s f)) = [].
Proof.
  intros H. unfold renderLoop.
  repeat match goal with
         | |- context [if ?c then _ else _] => destruct c; [now split|]
         end.
  assert (H0 : hasAutoCaptured (stampStart (now f) s) = true).
  { unfold stampStart. destruct (animationStart s); [exact H|]. now destruct s. }
  unfold detectAndUpdate. destruct (detection f) as [|r]; [now split|].
  destruct (latched_applyDetection (now f) r _ H0) as [A B].
  destruct (applyDetection (now f) r _) as [s' shots]. now split.
Qed.

Lemma feed_cons (s : Refs) (f : Frame) (fs : list Frame) :
  feed s (f :: fs) =
  (fst (feed (fst (renderLoop s f)) fs),
   captures (snd (renderLoop s f)) :: snd (feed (fst (renderLoop s f)) fs)).
Proof.
  cbn. destruct (renderLoop s f) as [s1 o]. cbn.
  now destruct (feed s1 fs).
Qed.

Lemma feed_length (fs : list Frame) (s : Refs) : length (snd (feed s fs)) = length fs.
Proof.
  revert s. induction fs as [|f fs IH]; intros s; [reflexivity|].
  rewrite feed_cons. cbn. now rewrite IH.
Qed.

Lemma feed_app (fs gs : list Frame) (s : Refs) :
  feed s (fs ++ gs) =
  (fst (feed (fst (feed s fs)) gs), (snd (feed s fs) ++ snd (feed (fst (feed s fs)) gs))%list).
Proof.
  revert s. induction fs as [|f fs IH]; intros s.
  - cbn. now destruct (feed s gs).
  - change ((f :: fs) ++ gs)%list with (f :: (fs ++ gs))%list.
    rewrite !feed_cons, IH. reflexivity.
Qed.

Lemma latched_feed (fs : list Frame) (s : Refs) :
  hasAutoCaptured s = true ->
  hasAutoCaptured (fst (feed s fs)) = true /\
  snd (feed s fs) = repeat [] (length fs).
Proof.
  revert s. induction fs as [|f fs IH]; intros s H; [now split|].
  rewrite feed_cons. destruct (latched_renderLoop s f H) as [A B].
  destruct (IH _ A) as [C D]. cbn. rewrite B, D. now split.
Qed.

(** Close frames in [Locked] before the latch is set: [n] of them, ending
    below the threshold. *)
Lemma counting_feed (fs : list Frame) (s : Refs) :
  isCameraOn s = true -> hasAnimationStarted s = true -> hasAutoCaptured s = false ->
  Forall (fun f => closeFrame f = true) fs ->
  autoCaptureFrameCount s + Z.of_nat (length fs) < AUTO_CAPTURE_FRAMES ->
  let s' := fst (feed s fs) in
  isCameraOn s' = true /\ hasAnimationStarted s' = true /\ hasAutoCaptured s' = false /\
  autoCaptureFrameCount s' = autoCaptureFrameCount s + Z.of_nat (length fs) /\
  snd (feed s fs) = repeat [] (length fs).
Proof.
  revert s. induction fs as [|f fs IH]; intros s Hon Hlk Hla Hfs Hlt.
  - cbn. repeat split; auto. lia.
  - inversion Hfs as [|? ? Hf Hfs']; subst.
    rewrite feed_cons. cbn [fst snd].
    destruct (locked_close_frame s f Hon Hlk Hf) as (A & B & _ & C & _).
    destruct (C Hla) as (C1 & C2 & C3).
    cbn [length] in Hlt. rewrite Nat2Z.inj_succ in Hlt.
    assert (G : (autoCaptureFrameCount (fst (renderLoop s f)) >=? AUTO_CAPTURE_FRAMES) = false).
    { rewrite Z.geb_leb. apply Z.leb_gt. lia. }
    rewrite G in C2, C3.
    destruct (IH _ A B C2 Hfs') as (D1 & D2 & D3 & D4 & D5); [lia|].
    cbn [length]. rewrite Nat2Z.inj_succ.
    repeat split; auto; [lia|]. rewrite C3, D5. reflexivity.
Qed.

Lemma locked_camera_on (s : Refs) :
  Reachable s -> hasAnimationStarted s = true -> isCameraOn s = true.
Proof.
  intros R H. destruct (isCameraOn s) eqn:E; [reflexivity|].
  destruct (inv_off s (Reachable_Inv s R) E) as (_ & _ & _ & _ & _ & _ & _ & P).
  unfold phase in P. rewrite H in P. discriminate.
Qed.

Lemma guide_applyDetection_capture_cells (t : float) (r : option FaceList) (s : Refs) :
  hasAnimationStarted s = false ->
  autoCaptureFrameCount (fst (applyDetection t r s)) = autoCaptureFrameCount s /\
  hasAutoCaptured (fst (applyDetection t r s)) = hasAutoCaptured s.
Proof.
  intros H. destruct s as [on st ll mc an dc cc started hl latch ac msg].
  cbn in H; subst started.
  destruct r as [[|[face|] faces]|]; unfold_machine; cbn.
  all: try (destruct (evaluateAlignment face) as [al cl]).
  all: destruct ll; walk_ifs; auto.
Qed.

Lemma guide_frame_capture_cells (s : Refs) (f : Frame) :
  hasAnimationStarted s = false ->
  autoCaptureFrameCount (fst (renderLoop s f)) = autoCaptureFrameCount s /\
  hasAutoCaptured (fst (renderLoop s f)) = hasAutoCaptured s.
Proof.
  intros H. unfold renderLoop.
  repeat match goal with
         | |- context [if ?c then _ else _] => destruct c; [now split|]
         end.
  assert (H0 : hasAnimationStarted (stampStart (now f) s) = false /\
               autoCaptureFrameCount (stampStart (now f) s) = autoCaptureFrameCount s /\
               hasAutoCaptured (stampStart (now f) s) = hasAutoCaptured s).
  { unfold stampStart. destruct (animationStart s); [now repeat split|]. now destruct s. }
  destruct H0 as (A & B & C).
  unfold detectAndUpdate. destruct (detection f) as [|r]; [now split|].
  destruct (guide_applyDetection_capture_cells (now f) r _ A) as [D E].
  destruct (applyDetection (now f) r _) as [s' shots]. cbn in *. split; congruence.
Qed.

(** While every frame so far was met in [Guide], the capture cells are
    as the session began. *)
Lemma guide_prefix_capture_cells (gs : list Frame) (s : Refs) :
  (forall k, (k < length gs)%nat -> phase (fst (feed s (firstn k gs))) = Guide) ->
  autoCaptureFrameCount (fst (feed s gs)) = autoCaptureFrameCount s /\
  hasAutoCaptured (fst (feed s gs)) = hasAutoCaptured s.
Proof.
  revert s. induction gs as [|g gs IH]; intros s H; [now split|].
  rewrite feed_cons. cbn [fst].
  assert (Hg : hasAnimationStarted s = false).
  { specialize (H 0%nat). cbn in H. unfold phase in H.
    destruct (hasAnimationStarted s); [|reflexivity].
    assert (Locked = Guide) by (apply H; lia). discriminate. }
  destruct (guide_frame_capture_cells s g Hg) as [A B].
  destruct (IH (fst (renderLoop s g))) as [C D].
  - intros k Hk. specialize (H (S k)). rewrite firstn_cons, feed_cons in H.
    apply H. cbn. lia.
  - split; congruence.
Qed.

Lemma all_repeat {A} (P : A -> Prop) (a : A) (n : nat) :
  P a -> Forall P (repeat a n).
Proof.
  intros H. apply Forall_forall. intros b Hb. apply repeat_spec in Hb. now subst b.
Qed.

(** ** Auto-capture *)

(** C1. In [Locked] with the latch clear, a close frame zeroes
    [disengageCount] and adds one to [autoCaptureFrameCount]; the frame on
    which the count reaches 60 sets [hasAutoCaptured] and calls
    [captureScreenshot(true)], and no other frame does. Once the latch is
    set no sequence of frames, of any kind, captures again. A run of at
    least 60 close frames from a count of 0 (100, say) captures exactly
    once, on its 60th frame; the count is 0 with the latch clear when a
    session locks for the first time. *)
Theorem auto_capture_fires_once :
  (forall s f,
      Reachable s -> hasAnimationStarted s = true -> hasAutoCaptured s = false ->
      closeFrame f = true ->
      let s' := fst (renderLoop s f) in
      let shots := captures (snd (renderLoop s f)) in
      phase s' = Locked /\ disengageCount s' = 0 /\
      autoCaptureFrameCount s' = autoCaptureFrameCount s + 1 /\
      autoCaptureFrameCount s' <= AUTO_CAPTURE_FRAMES /\
      (autoCaptureFrameCount s' = AUTO_CAPTURE_FRAMES ->
         hasAutoCaptured s' = true /\ shots = [true]) /\
      (autoCaptureFrameCount s' < AUTO_CAPTURE_FRAMES ->
         hasAutoCaptured s' = false /\ shots = [])) /\
  (forall s fs,
      hasAutoCaptured s = true ->
      hasAutoCaptured (fst (feed s fs)) = true /\
      snd (feed s fs) = repeat [] (length fs)) /\
  (forall s fs,
      Reachable s -> hasAnimationStarted s = true -> hasAutoCaptured s = false ->
      autoCaptureFrameCount s = 0 ->
      Forall (fun f => closeFrame f = true) fs -> (60 <= length fs)%nat ->
      hasAutoCaptured (fst (feed s fs)) = true /\
      snd (feed s fs) = repeat [] 59 ++ [true] :: repeat [] (length fs - 60)) /\
  (forall s0 gs,
      (forall k, (k < length gs)%nat ->
         phase (fst (feed (startCamera Playing s0) (firstn k gs))) = Guide) ->
      autoCaptureFrameCount (fst (feed (startCamera Playing s0) gs)) = 0 /\
      hasAutoCaptured (fst (feed (startCamera Playing s0) gs)) = false).
Proof.
  split; [|split; [|split]]; [| | |intros s0 gs; apply guide_prefix_capture_cells].
  - intros s f R Hlk Hla Hc.
    pose proof (locked_camera_on s R Hlk) as Hon.
    destruct (locked_close_frame s f Hon Hlk Hc) as (A & B & C & D & _).
    destruct (D Hla) as (D1 & D2 & D3).
    pose proof (inv_latch s (Reachable_Inv s R) Hla) as [L0 L1].
    cbv zeta. unfold phase. rewrite B.
    split; [reflexivity|]. split; [exact C|]. split; [exact D1|].
    split; [lia|]. split.
    + intros E. rewrite D2, D3, E. now split.
    + intros E. rewrite D2, D3.
      replace (_ >=? _) with false; [now split|].
      symmetry. rewrite Z.geb_leb. apply Z.leb_gt. exact E.
  - intros s fs. apply latched_feed.
  - intros s fs R Hlk Hla H0 Hfs Hlen.
    pose proof (locked_camera_on s R Hlk) as Hon.
    assert (L1 : length (firstn 59 fs) = 59%nat) by (rewrite length_firstn; lia).
    assert (L2 : length (skipn 59 fs) = (length fs - 59)%nat) by apply length_skipn.
    pose proof (firstn_skipn 59 fs) as Efs.
    destruct (skipn 59 fs) as [|f rest] eqn:Esk; [cbn in L2; lia|].
    cbn [length] in L2.
    replace (length fs - 60)%nat with (length rest) by lia.
    rewrite <- Efs in Hfs |- *. clear Efs.
    remember (firstn 59 fs) as hd eqn:Ehd. clear Ehd.
    apply Forall_app in Hfs. destruct Hfs as [Hhead Htail].
    inversion Htail as [|? ? Hf Hrest]; subst.
    rewrite feed_app. cbn [fst snd].
    destruct (counting_feed hd s Hon Hlk Hla Hhead) as (A & B & C & D & E).
    { rewrite L1, H0. unfold AUTO_CAPTURE_FRAMES. lia. }
    rewrite feed_cons. cbn [fst snd]. rewrite E, L1.
    destruct (locked_close_frame _ f A B Hf) as (A' & B' & _ & D' & _).
    destruct (D' C) as (D1 & D2 & D3).
    rewrite D, H0, L1 in D1. rewrite D1 in D2, D3.
    change (0 + Z.of_nat 59 + 1 >=? AUTO_CAPTURE_FRAMES) with true in D2, D3.
    destruct (latched_feed rest _ D2) as [F G].
    rewrite D3, G. split; [exact F|]. reflexivity.
Qed.

Lemma auto_capture_fires_once_witness :
  autoCaptureFrameCount (fst (renderLoop justLocked nearFrame)) =
    autoCaptureFrameCount justLocked + 1 /\
  (hasAutoCaptured (fst (feed (fst (feed justLocked (repeat nearFrame 60))) [smallFrame; nearFrame])) = true /\
   snd (feed (fst (feed justLocked (repeat nearFrame 60))) [smallFrame; nearFrame]) =
     repeat [] (length [smallFrame; nearFrame])) /\
  (hasAutoCaptured (fst (feed justLocked (repeat nearFrame 100))) = true /\
   snd (feed justLocked (repeat nearFrame 100)) =
     repeat [] 59 ++ [true] :: repeat [] (length (repeat nearFrame 100) - 60)) /\
  (autoCaptureFrameCount
     (fst (feed (startCamera Playing initialRefs) [smallFrame; alignedFrame])) = 0 /\
   hasAutoCaptured
     (fst (feed (startCamera Playing initialRefs) [smallFrame; alignedFrame])) = false).
Proof.
  destruct auto_capture_fires_once as (H1 & H2 & H3 & H4).
  split; [|split; [|split]].
  - refine (proj1 (proj2 (proj2 (H1 justLocked nearFrame _ _ _ _)))).
    + apply Reachable_session.
    + vm_compute; reflexivity.
    + vm_compute; reflexivity.
    + vm_compute; reflexivity.
  - apply (H2 (fst (feed justLocked (repeat nearFrame 60))) [smallFrame; nearFrame]).
    vm_compute; reflexivity.
  - apply (H3 justLocked (repeat nearFrame 100)).
    + apply Reachable_session.
    + vm_compute; reflexivity.
    + vm_compute; reflexivity.
    + vm_compute; reflexivity.
    + apply all_repeat. vm_compute; reflexivity.
    + rewrite repeat_length. lia.
  - apply (H4 initialRefs [smallFrame; alignedFrame]).
    intros [|[|k]] Hk; [vm_compute; reflexivity | vm_compute; reflexivity | cbn in Hk; lia].
Defined.

(** ** Guide to Locked *)

Lemma guide_verdict_frame (s : Refs) (f : Frame) (v : AlignmentVerdict) :
  isCameraOn s = true -> hasAnimationStarted s = false -> verdictOf f = Some v ->
  let s' := fst (renderLoop s f) in
  let n := if isClose v then closeFrameCount s + 1 else 0 in
  isCameraOn s' = true /\
  hasAnimationStarted s' = isAligned v || (n >=? CLOSE_UNLOCK_FRAMES) /\
  (hasAnimationStarted s' = true ->
     closeFrameCount s' = 0 /\ disengageCount s' = 0 /\
     animationStart s' = Some (now f)) /\
  (hasAnimationStarted s' = false -> closeFrameCount s' = n).
Proof.
  intros Hon Hg Hv.
  destruct (renderLoop_verdict s f v Hon Hv) as [faces ->].
  destruct v as [al cl].
  destruct s as [on st ll mc an dc cc started hl latch ac msg]. cbn in Hon, Hg. subst.
  unfold_machine. destruct an, al, cl, hl; walk_ifs; intuition congruence.
Qed.

Lemma guide_stays_applyDetection (t : float) (r : option FaceList) (s : Refs) :
  hasAnimationStarted s = false ->
  match r with Some (Some _ :: _) => False | _ => True end ->
  hasAnimationStarted (fst (applyDetection t r s)) = false.
Proof.
  intros H Hr. destruct s as [on st ll mc an dc cc started hl latch ac msg].
  cbn in H; subst started.
  destruct r as [[|[face|] faces]|]; try contradiction; unfold_machine; cbn.
  all: destruct ll; walk_ifs; auto.
Qed.

Lemma guide_no_verdict_frame (s : Refs) (f : Frame) :
  hasAnimationStarted s = false -> verdictOf f = None ->
  hasAnimationStarted (fst (renderLoop s f)) = false.
Proof.
  intros H Hv. unfold renderLoop.
  destruct (isCameraOn s) eqn:Hon; cbn [negb]; [|exact H]. cbv iota.
  unfold verdictOf, reachesDetection in Hv. rewrite Z.ltb_antisym.
  destruct (hasBundle f), (hasVideo f), (hasCanvas f), (2 <=? readyState f),
    (hasContext f); cbn in *; try exact H.
  assert (H0 : hasAnimationStarted (stampStart (now f) s) = false).
  { unfold stampStart. destruct (animationStart s); [exact H|]. now destruct s. }
  unfold detectAndUpdate. destruct (detection f) as [|r]; [exact H0|].
  pose proof (guide_stays_applyDetection (now f) r _ H0) as A.
  destruct (applyDetection (now f) r _) as [s' shots]. apply A.
  destruct r as [[|[face|] faces]|]; try exact I. discriminate.
Qed.

Lemma closeUnaligned_verdict (f : Frame) :
  closeUnaligned f = true ->
  exists v, verdictOf f = Some v /\ isClose v = true /\ isAligned v = false.
Proof.
  unfold closeUnaligned. destruct (verdictOf f) as [v|]; [|discriminate].
  rewrite andb_true_iff, negb_true_iff. eauto.
Qed.

Lemma Forall_firstn {A} (P : A -> Prop) (k : nat) (l : list A) :
  Forall P l -> Forall P (firstn k l).
Proof.
  revert l. induction k as [|k IH]; intros [|a l] H; cbn; auto.
  inversion H; subst. constructor; auto.
Qed.

(** Close, unaligned frames in [Guide] that stay below the unlock count. *)
Lemma warming_feed (fs : list Frame) (s : Refs) :
  isCameraOn s = true -> hasAnimationStarted s = false ->
  Forall (fun f => closeUnaligned f = true) fs ->
  closeFrameCount s + Z.of_nat (length fs) < CLOSE_UNLOCK_FRAMES ->
  let s' := fst (feed s fs) in
  isCameraOn s' = true /\ hasAnimationStarted s' = false /\
  closeFrameCount s' = closeFrameCount s + Z.of_nat (length fs).
Proof.
  revert s. induction fs as [|f fs IH]; intros s Hon Hg Hfs Hlt.
  - cbn. repeat split; auto. lia.
  - inversion Hfs as [|? ? Hf Hfs']; subst.
    destruct (closeUnaligned_verdict f Hf) as (v & Hv & Hc & Ha).
    destruct (guide_verdict_frame s f v Hon Hg Hv) as (A & B & _ & D).
    rewrite Hc, Ha in B. rewrite Hc in D. cbn [length] in Hlt. rewrite Nat2Z.inj_succ in Hlt.
    replace (closeFrameCount s + 1 >=? CLOSE_UNLOCK_FRAMES) with false in B
      by (symmetry; rewrite Z.geb_leb; apply Z.leb_gt; lia).
    cbn [orb] in B. specialize (D B).
    rewrite feed_cons. cbn [fst].
    destruct (IH _ A B Hfs') as (E1 & E2 & E3); [lia|].
    cbn [length]. rewrite Nat2Z.inj_succ. repeat split; auto. lia.
Qed.

(** C3. In [Guide], a frame with a verdict locks exactly when the verdict
    is aligned or the updated [closeFrameCount] has reached 6, and a frame
    without a verdict never locks; locking zeroes [closeFrameCount] and
    [disengageCount] and stamps [animationStart] with the frame's time. Six
    consecutive close, unaligned frames from a count of 0 lock on the sixth
    and on none of the first five. *)
Theorem guide_locks_on_aligned_or_six_close :
  (forall s f v,
      isCameraOn s = true -> phase s = Guide -> verdictOf f = Some v ->
      let s' := fst (renderLoop s f) in
      let n := if isClose v then closeFrameCount s + 1 else 0 in
      (phase s' = Locked <-> isAligned v = true \/ CLOSE_UNLOCK_FRAMES <= n) /\
      (phase s' = Locked ->
         closeFrameCount s' = 0 /\ disengageCount s' = 0 /\
         animationStart s' = Some (now f))) /\
  (forall s f,
      phase s = Guide -> verdictOf f = None -> phase (fst (renderLoop s f)) = Guide) /\
  (forall s fs,
      isCameraOn s = true -> phase s = Guide -> closeFrameCount s = 0 ->
      Forall (fun f => closeUnaligned f = true) fs -> length fs = 6%nat ->
      (forall k, (k < 6)%nat -> phase (fst (feed s (firstn k fs))) = Guide) /\
      phase (fst (feed s fs)) = Locked).
Proof.
  assert (P : forall s, phase s = Guide -> hasAnimationStarted s = false).
  { intros s. unfold phase. now destruct (hasAnimationStarted s). }
  assert (Q : forall s, phase s = Locked <-> hasAnimationStarted s = true).
  { intros s. unfold phase. destruct (hasAnimationStarted s); intuition discriminate. }
  split; [|split].
  - intros s f v Hon Hg Hv. apply P in Hg.
    destruct (guide_verdict_frame s f v Hon Hg Hv) as (_ & B & C & _).
    cbv zeta. rewrite !Q. split; [|exact C].
    rewrite B, orb_true_iff, Z.geb_leb, Z.leb_le. reflexivity.
  - intros s f Hg Hv. apply P in Hg.
    unfold phase. now rewrite (guide_no_verdict_frame s f Hg Hv).
  - intros s fs Hon Hg H0 Hfs Hlen. apply P in Hg. split.
    + intros k Hk.
      destruct (warming_feed (firstn k fs) s Hon Hg) as (_ & B & _).
      * now apply Forall_firstn.
      * rewrite length_firstn, H0. unfold CLOSE_UNLOCK_FRAMES. lia.
      * unfold phase. now rewrite B.
    + pose proof (firstn_skipn 5 fs) as Efs.
      assert (L2 : length (skipn 5 fs) = 1%nat) by (rewrite length_skipn; lia).
      assert (L1 : length (firstn 5 fs) = 5%nat) by (rewrite length_firstn; lia).
      destruct (skipn 5 fs) as [|f [|g rest]]; try discriminate.
      rewrite <- Efs in Hfs |- *. clear Efs.
      remember (firstn 5 fs) as hd eqn:Ehd. clear Ehd.
      apply Forall_app in Hfs. destruct Hfs as [Hhead Htail].
      inversion Htail as [|? ? Hf _]; subst.
      destruct (warming_feed hd s Hon Hg Hhead) as (A & B & C).
      { rewrite L1, H0. unfold CLOSE_UNLOCK_FRAMES. lia. }
      rewrite feed_app, feed_cons. cbn [fst feed].
      destruct (closeUnaligned_verdict f Hf) as (v & Hv & Hc & Ha).
      destruct (guide_verdict_frame _ f v A B Hv) as (_ & D & _).
      rewrite Hc, Ha, C, H0, L1 in D. apply Q. exact D.
Qed.

Lemma guide_locks_on_aligned_or_six_close_witness :
  (phase (fst (renderLoop (session [Start Playing]) alignedFrame)) = Locked ->
   closeFrameCount (fst (renderLoop (session [Start Playing]) alignedFrame)) = 0 /\
   disengageCount (fst (renderLoop (session [Start Playing]) alignedFrame)) = 0 /\
   animationStart (fst (renderLoop (session [Start Playing]) alignedFrame)) =
     Some (now alignedFrame)) /\
  phase (fst (renderLoop (session [Start Playing]) (throwingAt 80))) = Guide /\
  ((forall k, (k < 6)%nat ->
      phase (fst (feed (session [Start Playing]) (firstn k (repeat nearFrame 6)))) = Guide) /\
   phase (fst (feed (session [Start Playing]) (repeat nearFrame 6))) = Locked).
Proof.
  destruct guide_locks_on_aligned_or_six_close as (H1 & H2 & H3).
  split; [|split].
  - refine (proj2 (H1 (session [Start Playing]) alignedFrame
                      (evaluateAlignment alignedFace) _ _ _)).
    + vm_compute; reflexivity.
    + vm_compute; reflexivity.
    + vm_compute; reflexivity.
  - apply (H2 (session [Start Playing]) (throwingAt 80)).
    + vm_compute; reflexivity.
    + vm_compute; reflexivity.
  - apply (H3 (session [Start Playing]) (repeat nearFrame 6)).
    + vm_compute; reflexivity.
    + vm_compute; reflexivity.
    + vm_compute; reflexivity.
    + apply all_repeat. vm_compute; reflexivity.
    + apply repeat_length.
Defined.

(** ** Locked to Guide *)

Lemma Reachable_renderLoop (s : Refs) (f : Frame) :
  Reachable s -> Reachable (fst (renderLoop s f)).
Proof. intros R. exact (reach_step s (Tick f) R). Qed.

Lemma Reachable_feed (fs : list Frame) (s : Refs) :
  Reachable s -> Reachable (fst (feed s fs)).
Proof.
  revert s. induction fs as [|f fs IH]; intros s R; [exact R|].
  rewrite feed_cons. cbn [fst]. apply IH. now apply Reachable_renderLoop.
Qed.

Lemma locked_far_frame (s : Refs) (f : Frame) :
  isCameraOn s = true -> hasAnimationStarted s = true -> farFrame f = true ->
  let s' := fst (renderLoop s f) in
  autoCaptureFrameCount s' = 0 /\
  (DISENGAGE_FRAME_LIMIT < disengageCount s + 1 -> reverted s') /\
  (disengageCount s + 1 <= DISENGAGE_FRAME_LIMIT ->
     hasAnimationStarted s' = true /\ disengageCount s' = disengageCount s + 1).
Proof.
  intros Hon Hlk Hf. destruct (farFrame_verdict f Hf) as (v & Hv & Hcl).
  destruct (renderLoop_verdict s f v Hon Hv) as [faces ->].
  destruct v as [al cl]. cbn in Hcl. subst cl.
  destruct s as [on st ll mc an dc cc started hl latch ac msg]. cbn in Hon, Hlk. subst.
  unfold reverted. unfold_machine. destruct an; walk_ifs; zb; intuition (try lia).
Qed.

Lemma locked_noFace_frame (s : Refs) (f : Frame) :
  isCameraOn s = true -> hasAnimationStarted s = true -> lastLandmarks s <> None ->
  noFace f = true ->
  let s' := fst (renderLoop s f) in
  autoCaptureFrameCount s' = autoCaptureFrameCount s /\
  (DISENGAGE_FRAME_LIMIT < disengageCount s + 1 -> reverted s') /\
  (disengageCount s + 1 <= DISENGAGE_FRAME_LIMIT ->
     hasAnimationStarted s' = true /\ disengageCount s' = disengageCount s + 1).
Proof.
  intros Hon Hlk Hll Hf. unfold noFace in Hf. apply orb_true_iff in Hf.
  assert (Hd : reachesDetection f = true /\
               (detection f = DetectResult None \/ detection f = DetectResult (Some []) \/
                exists rest, detection f = DetectResult (Some (None :: rest)))).
  { destruct Hf as [Hf|Hf].
    - destruct (emptyDetection_cases f Hf) as [A [B|B]]; auto.
    - destruct (missingPrimary_cases f Hf) as [A B]; auto. }
  destruct Hd as [Hr Hd]. rewrite (renderLoop_reaches s f Hon Hr).
  unfold detectAndUpdate.
  destruct s as [on st ll mc an dc cc started hl latch ac msg]. cbn in Hon, Hlk, Hll. subst.
  destruct ll as [faces|]; [|congruence].
  unfold reverted.
  destruct Hd as [->|[->|[rest ->]]]; unfold_machine; destruct an; walk_ifs; zb;
    intuition (try lia).
Qed.

Lemma locked_disengaging_frame (s : Refs) (f : Frame) :
  Reachable s -> hasAnimationStarted s = true -> disengaging f = true ->
  let s' := fst (renderLoop s f) in
  (DISENGAGE_FRAME_LIMIT < disengageCount s + 1 -> reverted s') /\
  (disengageCount s + 1 <= DISENGAGE_FRAME_LIMIT ->
     hasAnimationStarted s' = true /\ disengageCount s' = disengageCount s + 1) /\
  (farFrame f = true -> autoCaptureFrameCount s' = 0) /\
  (noFace f = true -> autoCaptureFrameCount s' = autoCaptureFrameCount s).
Proof.
  intros R Hlk Hf.
  pose proof (locked_camera_on s R Hlk) as Hon.
  destruct (inv_locked s (Reachable_Inv s R) Hlk) as [Hll _].
  unfold disengaging in Hf. apply orb_true_iff in Hf. cbv zeta.
  assert (X : farFrame f = true -> noFace f = true -> False).
  { intros A B. destruct (farFrame_verdict f A) as (v & Hv & _).
    destruct (verdictOf_Some f v Hv) as (_ & face & rest & Hd & _).
    unfold noFace, emptyDetection, missingPrimary in B. rewrite Hd in B.
    rewrite !andb_false_r in B. discriminate. }
  destruct Hf as [Hf|Hf].
  - destruct (locked_far_frame s f Hon Hlk Hf) as (A & B & C).
    repeat split; auto; intros; try apply C; try apply B; auto; exfalso; auto.
  - destruct (locked_noFace_frame s f Hon Hlk Hll Hf) as (A & B & C).
    repeat split; auto; intros; try apply C; try apply B; auto; exfalso; auto.
Qed.

(** Disengaging frames in [Locked] that stay within the limit. *)
Lemma drifting_feed (fs : list Frame) (s : Refs) :
  Reachable s -> hasAnimationStarted s = true ->
  Forall (fun f => disengaging f = true) fs ->
  disengageCount s + Z.of_nat (length fs) <= DISENGAGE_FRAME_LIMIT ->
  let s' := fst (feed s fs) in
  hasAnimationStarted s' = true /\
  disengageCount s' = disengageCount s + Z.of_nat (length fs).
Proof.
  revert s. induction fs as [|f fs IH]; intros s R Hlk Hfs Hle.
  - cbn. split; auto. lia.
  - inversion Hfs as [|? ? Hf Hfs']; subst.
    cbn [length] in Hle. rewrite Nat2Z.inj_succ in Hle.
    destruct (locked_disengaging_frame s f R Hlk Hf) as (_ & B & _).
    destruct B as [B1 B2]; [lia|].
    rewrite feed_cons. cbn [fst].
    destruct (IH _ (Reachable_renderLoop s f R) B1 Hfs') as [C1 C2]; [lia|].
    cbn [length]. rewrite Nat2Z.inj_succ. split; auto. lia.
Qed.

(** C4. In [Locked], a frame with a face that is not close, or with no
    face, adds one to [disengageCount] (the not-close frame also zeroes
    [autoCaptureFrameCount]); the machine goes back to [Guide] exactly when
    the count so increased exceeds 12. Counting from 0, twelve such frames
    in a row leave the machine in [Locked] and the thirteenth reverts it. *)
Theorem locked_reverts_after_thirteen :
  (forall s f,
      Reachable s -> phase s = Locked -> disengaging f = true ->
      let s' := fst (renderLoop s f) in
      (phase s' = Guide <-> DISENGAGE_FRAME_LIMIT < disengageCount s + 1) /\
      (phase s' = Locked -> disengageCount s' = disengageCount s + 1) /\
      (farFrame f = true -> autoCaptureFrameCount s' = 0)) /\
  (forall s fs,
      Reachable s -> phase s = Locked -> disengageCount s = 0 ->
      Forall (fun f => disengaging f = true) fs -> length fs = 12%nat ->
      phase (fst (feed s fs)) = Locked) /\
  (forall s fs,
      Reachable s -> phase s = Locked -> disengageCount s = 0 ->
      Forall (fun f => disengaging f = true) fs -> length fs = 13%nat ->
      phase (fst (feed s fs)) = Guide).
Proof.
  assert (P : forall s, phase s = Locked -> hasAnimationStarted s = true).
  { intros s. unfold phase. now destruct (hasAnimationStarted s). }
  split; [|split].
  - intros s f R Hlk Hf. apply P in Hlk.
    destruct (locked_disengaging_frame s f R Hlk Hf) as (A & B & C & _).
    cbv zeta. unfold phase.
    destruct (Z_lt_le_dec DISENGAGE_FRAME_LIMIT (disengageCount s + 1)) as [G|G].
    + destruct (A G) as (A1 & _). rewrite A1.
      repeat split; auto; intros; try discriminate.
    + destruct (B G) as (B1 & B2). rewrite B1.
      repeat split; auto; intros; try discriminate; lia.
  - intros s fs R Hlk H0 Hfs Hlen. apply P in Hlk.
    destruct (drifting_feed fs s R Hlk Hfs) as [A _].
    { rewrite H0, Hlen. unfold DISENGAGE_FRAME_LIMIT. lia. }
    unfold phase. now rewrite A.
  - intros s fs R Hlk H0 Hfs Hlen. apply P in Hlk.
    pose proof (firstn_skipn 12 fs) as Efs.
    assert (L2 : length (skipn 12 fs) = 1%nat) by (rewrite length_skipn; lia).
    assert (L1 : length (firstn 12 fs) = 12%nat) by (rewrite length_firstn; lia).
    destruct (skipn 12 fs) as [|f [|g rest]]; try discriminate.
    rewrite <- Efs in Hfs |- *. clear Efs.
    remember (firstn 12 fs) as hd eqn:Ehd. clear Ehd.
    apply Forall_app in Hfs. destruct Hfs as [Hhead Htail].
    inversion Htail as [|? ? Hf _]; subst.
    destruct (drifting_feed hd s R Hlk Hhead) as [A B].
    { rewrite H0, L1. unfold DISENGAGE_FRAME_LIMIT. lia. }
    rewrite feed_app, feed_cons. cbn [fst feed].
    destruct (locked_disengaging_frame _ f (Reachable_feed hd s R) A Hf) as (C & _).
    destruct C as (C1 & _).
    { rewrite B, H0, L1. unfold DISENGAGE_FRAME_LIMIT. lia. }
    unfold phase. now rewrite C1.
Qed.

Lemma locked_reverts_after_thirteen_witness :
  (phase (fst (renderLoop justLocked smallFrame)) = Locked ->
   disengageCount (fst (renderLoop justLocked smallFrame)) = disengageCount justLocked + 1) /\
  phase (fst (feed justLocked (repeat smallFrame 12))) = Locked /\
  phase (fst (feed justLocked (repeat smallFrame 12 ++ [emptyFrame]))) = Guide.
Proof.
  destruct locked_reverts_after_thirteen as (H1 & H2 & H3).
  split; [|split].
  - apply (H1 justLocked smallFrame).
    + apply Reachable_session.
    + vm_compute; reflexivity.
    + vm_compute; reflexivity.
  - apply (H2 justLocked (repeat smallFrame 12)).
    + apply Reachable_session.
    + vm_compute; reflexivity.
    + vm_compute; reflexivity.
    + apply all_repeat. vm_compute; reflexivity.
    + apply repeat_length.
  - apply (H3 justLocked (repeat smallFrame 12 ++ [emptyFrame])).
    + apply Reachable_session.
    + vm_compute; reflexivity.
    + vm_compute; reflexivity.
    + apply Forall_app. split.
      * apply all_repeat. vm_compute; reflexivity.
      * constructor; [vm_compute; reflexivity | constructor].
    + reflexivity.
Defined.

(** ** Aligned faces are close *)

(** C10. Whatever the landmark set, a verdict with [isAligned = true] has
    [isClose = true]: the size thresholds of "aligned" (0.34, 0.44) are at
    least those of "close" (0.30, 0.36). Hence one aligned frame in
    [Locked] zeroes [disengageCount]. *)
Theorem aligned_implies_close :
  (forall lm,
      isAligned (evaluateAlignment lm) = true -> isClose (evaluateAlignment lm) = true) /\
  (ALIGNMENT_TARGET.nearWidth <=? ALIGNMENT_TARGET.minWidth)%float = true /\
  (ALIGNMENT_TARGET.nearHeight <=? ALIGNMENT_TARGET.minHeight)%float = true /\
  (forall s f v,
      isCameraOn s = true -> phase s = Locked ->
      verdictOf f = Some v -> isAligned v = true ->
      disengageCount (fst (renderLoop s f)) = 0).
Proof.
  split; [exact aligned_is_close|]. split; [reflexivity|]. split; [reflexivity|].
  intros s f v Hon Hlk Hv Ha.
  assert (Hc : closeFrame f = true).
  { unfold closeFrame. rewrite Hv.
    destruct (verdictOf_Some f v Hv) as (_ & face & rest & _ & <-).
    now apply aligned_is_close. }
  unfold phase in Hlk. destruct (hasAnimationStarted s) eqn:E; [|discriminate].
  now destruct (locked_close_frame s f Hon E Hc) as (_ & _ & D & _).
Qed.

Lemma aligned_implies_close_witness :
  isClose (evaluateAlignment alignedFace) = true /\
  disengageCount
    (fst (renderLoop (fst (renderLoop justLocked smallFrame)) alignedFrame)) = 0.
Proof.
  destruct aligned_implies_close as (H1 & _ & _ & H2). split.
  - apply (H1 alignedFace). vm_compute; reflexivity.
  - apply (H2 (fst (renderLoop justLocked smallFrame)) alignedFrame
              (evaluateAlignment alignedFace)).
    + vm_compute; reflexivity.
    + vm_compute; reflexivity.
    + vm_compute; reflexivity.
    + vm_compute; reflexivity.
Defined.

(** ** Detection errors *)

(** C5, as stated, fails: in a session that has just locked, a frame whose
    detection throws leaves the cells as they were, while the same frame
    with an empty detection result counts a miss and a disengaged frame. *)
Lemma throw_is_not_empty_result :
  throwingFrame (throwingAt 80) = true /\
  fst (renderLoop justLocked (throwingAt 80)) <>
  fst (renderLoop justLocked (withEmptyResult (throwingAt 80))) /\
  disengageCount (fst (renderLoop justLocked (throwingAt 80))) = 0 /\
  missCount (fst (renderLoop justLocked (throwingAt 80))) = 0 /\
  disengageCount (fst (renderLoop justLocked (withEmptyResult (throwingAt 80)))) = 1 /\
  missCount (fst (renderLoop justLocked (withEmptyResult (throwingAt 80)))) = 1.
Proof.
  split; [vm_compute; reflexivity|]. split.
  - intros H. apply (f_equal disengageCount) in H. vm_compute in H. discriminate.
  - repeat split; vm_compute; reflexivity.
Qed.

(** C5, amended. A frame whose detection throws is skipped: the phase, the
    four counters, the capture latch and the retained landmarks are left as
    they were (only an unset [animationStart] is stamped, as on any frame
    that gets this far), nothing is captured or painted, and the next
    iteration is requested. *)
Theorem throwing_frame_is_skipped :
  forall s f,
    isCameraOn s = true -> throwingFrame f = true ->
    let s' := fst (renderLoop s f) in
    let o := snd (renderLoop s f) in
    s' = stampStart (now f) s /\
    phase s' = phase s /\
    closeFrameCount s' = closeFrameCount s /\
    disengageCount s' = disengageCount s /\
    missCount s' = missCount s /\
    autoCaptureFrameCount s' = autoCaptureFrameCount s /\
    hasAutoCaptured s' = hasAutoCaptured s /\
    lastLandmarks s' = lastLandmarks s /\
    animationStart s' =
      match animationStart s with
      | None => Some (now f)
      | Some t => Some t
      end /\
    captures o = [] /\ meshDrawn o = false /\ rescheduled o = true.
Proof.
  intros s f Hon Hf. destruct (throwingFrame_cases f Hf) as [Hr Hd].
  rewrite (renderLoop_reaches s f Hon Hr). unfold detectAndUpdate. rewrite Hd.
  cbn [fst snd]. unfold stampStart, phase.
  destruct s as [on st ll mc an dc cc started hl latch ac msg].
  destruct an; cbn; repeat split.
Qed.

Lemma throwing_frame_is_skipped_witness :
  disengageCount (fst (renderLoop justLocked (throwingAt 80))) = disengageCount justLocked /\
  rescheduled (snd (renderLoop justLocked (throwingAt 80))) = true.
Proof.
  pose proof (throwing_frame_is_skipped justLocked (throwingAt 80)) as H.
  cbv zeta in H.
  destruct H as (_ & _ & _ & H1 & _ & _ & _ & _ & _ & _ & _ & H2).
  - vm_compute; reflexivity.
  - vm_compute; reflexivity.
  - split; assumption.
Defined.

(** ** Interruptions in Guide *)

(** C6, as stated, fails: after one close frame in [Guide], a frame with no
    detection leaves [closeFrameCount] at 1, and five close frames, a
    missed frame and one more close frame unlock the mesh. *)
Lemma guide_miss_keeps_credit :
  phase (session [Start Playing; Tick nearFrame]) = Guide /\
  isCameraOn (session [Start Playing; Tick nearFrame]) = true /\
  closeFrame emptyFrame = false /\
  closeFrameCount
    (fst (renderLoop (session [Start Playing; Tick nearFrame]) emptyFrame)) = 1 /\
  closeFrameCount
    (fst (renderLoop (session [Start Playing; Tick nearFrame]) emptyFrame)) <> 0 /\
  phase (fst (feed (session [Start Playing])
                   (repeat nearFrame 5 ++ [emptyFrame; nearFrame]))) = Locked.
Proof. repeat split; try (vm_compute; reflexivity). vm_compute. discriminate. Qed.

Lemma guide_far_frame (s : Refs) (f : Frame) :
  isCameraOn s = true -> hasAnimationStarted s = false -> farFrame f = true ->
  closeFrameCount (fst (renderLoop s f)) = 0.
Proof.
  intros Hon Hg Hf. destruct (farFrame_verdict f Hf) as (v & Hv & Hcl).
  destruct (guide_verdict_frame s f v Hon Hg Hv) as (_ & _ & C & D).
  rewrite Hcl in D.
  destruct (hasAnimationStarted (fst (renderLoop s f))); [now apply C | now apply D].
Qed.

Lemma guide_empty_frame (s : Refs) (f : Frame) :
  Inv s -> isCameraOn s = true -> hasAnimationStarted s = false ->
  emptyDetection f = true ->
  let s' := fst (renderLoop s f) in
  hasAnimationStarted s' = false /\
  (lastLandmarks s = None -> closeFrameCount s' = 0) /\
  (lastLandmarks s <> None -> closeFrameCount s' = closeFrameCount s).
Proof.
  intros [_ _ _ Hgd _] Hon Hg Hf. destruct (emptyDetection_cases f Hf) as [Hr Hd].
  rewrite (renderLoop_reaches s f Hon Hr). unfold detectAndUpdate.
  destruct s as [on st ll mc an dc cc started hl latch ac msg]. cbn in Hon, Hg, Hgd. subst.
  specialize (Hgd eq_refl). unfold CLOSE_UNLOCK_FRAMES in Hgd.
  destruct Hd as [->| ->]; unfold_machine; destruct an, ll, hl; walk_ifs;
    intuition (try congruence; try lia).
Qed.

Lemma guide_missingPrimary_frame (s : Refs) (f : Frame) :
  isCameraOn s = true -> hasAnimationStarted s = false -> missingPrimary f = true ->
  closeFrameCount (fst (renderLoop s f)) = closeFrameCount s.
Proof.
  intros Hon Hg Hf. destruct (missingPrimary_cases f Hf) as [Hr [rest Hd]].
  rewrite (renderLoop_reaches s f Hon Hr). unfold detectAndUpdate. rewrite Hd.
  destruct s as [on st ll mc an dc cc started hl latch ac msg]. cbn in Hon, Hg. subst.
  unfold_machine. destruct an; reflexivity.
Qed.

(** C6, amended. In [Guide], a frame with a face that is not close zeroes
    [closeFrameCount]. A frame on which detection returns no face zeroes it
    only when no landmarks are retained from earlier frames; while
    [lastLandmarks] is retained the count is left as it was, and so it is
    when the face list has a missing first entry. *)
Theorem guide_reset_of_closeFrameCount :
  forall s f,
    Reachable s -> isCameraOn s = true -> phase s = Guide ->
    let s' := fst (renderLoop s f) in
    (farFrame f = true -> closeFrameCount s' = 0) /\
    (emptyDetection f = true -> lastLandmarks s = None -> closeFrameCount s' = 0) /\
    (emptyDetection f = true -> lastLandmarks s <> None ->
       closeFrameCount s' = closeFrameCount s /\ phase s' = Guide) /\
    (missingPrimary f = true -> closeFrameCount s' = closeFrameCount s).
Proof.
  intros s f R Hon Hg.
  assert (Hg' : hasAnimationStarted s = false).
  { unfold phase in Hg. now destruct (hasAnimationStarted s). }
  cbv zeta. repeat split.
  - now apply guide_far_frame.
  - intros Hf Hn.
    now destruct (guide_empty_frame s f (Reachable_Inv s R) Hon Hg' Hf) as (_ & A & _); auto.
  - destruct (guide_empty_frame s f (Reachable_Inv s R) Hon Hg' H) as (_ & _ & A); auto.
  - destruct (guide_empty_frame s f (Reachable_Inv s R) Hon Hg' H) as (A & _).
    unfold phase. now rewrite A.
  - now apply guide_missingPrimary_frame.
Qed.

Lemma guide_reset_of_closeFrameCount_witness :
  closeFrameCount
    (fst (renderLoop (session [Start Playing; Tick nearFrame]) smallFrame)) = 0 /\
  closeFrameCount (fst (renderLoop (session [Start Playing]) emptyFrame)) = 0 /\
  closeFrameCount
    (fst (renderLoop (session [Start Playing; Tick nearFrame]) emptyFrame)) =
  closeFrameCount (session [Start Playing; Tick nearFrame]).
Proof.
  split; [|split].
  - refine (proj1 (guide_reset_of_closeFrameCount
                     (session [Start Playing; Tick nearFrame]) smallFrame _ _ _) _).
    + apply Reachable_session.
    + vm_compute; reflexivity.
    + vm_compute; reflexivity.
    + vm_compute; reflexivity.
  - refine (proj1 (proj2 (guide_reset_of_closeFrameCount
                            (session [Start Playing]) emptyFrame _ _ _)) _ _).
    + apply Reachable_session.
    + vm_compute; reflexivity.
    + vm_compute; reflexivity.
    + vm_compute; reflexivity.
    + vm_compute; reflexivity.
  - refine (proj1 (proj1 (proj2 (proj2 (guide_reset_of_closeFrameCount
              (session [Start Playing; Tick nearFrame]) emptyFrame _ _ _))) _ _)).
    + apply Reachable_session.
    + vm_compute; reflexivity.
    + vm_compute; reflexivity.
    + vm_compute; reflexivity.
    + vm_compute; discriminate.
Defined.

(** ** Stopping and restarting *)

Lemma stopCamera_off (s : Refs) : isCameraOn (stopCamera s) = false.
Proof.
  unfold stopCamera. destruct s as [on st ll mc an dc cc started hl latch ac msg].
  cbn. destruct on, st; reflexivity.
Qed.

(** C8. Stopping the camera in any reachable state clears the capture
    latch, zeroes the four counters, drops the retained landmarks and the
    animation start and puts the phase back to [Guide]; the cells are in
    that state after any attempt to start again, and a successful start
    leaves the camera on. *)
Theorem stop_resets_everything :
  forall s,
    Reachable s ->
    machineReset (stopCamera s) /\
    isCameraOn (stopCamera s) = false /\
    (forall o, machineReset (startCamera o (stopCamera s))) /\
    isCameraOn (startCamera Playing (stopCamera s)) = true.
Proof.
  intros s R.
  pose proof (stopCamera_off s) as Off.
  pose proof (Inv_stopCamera s (Reachable_Inv s R)) as I.
  split; [exact (inv_off _ I Off)|]. split; [exact Off|]. split.
  - intros o. destruct o.
    + exact (inv_off _ I Off).
    + apply inv_off; [apply (Inv_startCamera MediaRefused), I | apply stopCamera_off].
    + destruct (inv_off _ I Off) as (A & B & C & D & E & F & G & H).
      unfold machineReset, phase in *. cbn. now repeat split.
    + apply inv_off; [apply (Inv_startCamera PlayRejected), I | apply stopCamera_off].
    + unfold machineReset, phase. cbn. now repeat split.
  - reflexivity.
Qed.

Lemma stop_resets_everything_witness :
  machineReset (stopCamera (fst (renderLoop justLocked nearFrame))) /\
  isCameraOn (stopCamera (fst (renderLoop justLocked nearFrame))) = false.
Proof.
  pose proof (stop_resets_everything (fst (renderLoop justLocked nearFrame))) as H.
  destruct H as (H1 & H2 & _).
  - apply Reachable_renderLoop, Reachable_session.
  - split; assumption.
Defined.

(** ** Reverting on lost tracking *)

(** C2 on the code: lock, 59 close frames, then 13 frames without
    detection. The machine is back in [Guide] with [closeFrameCount],
    [disengageCount] and [missCount] at 0 and no landmarks or animation
    start, but [autoCaptureFrameCount] still holds 59; after locking again
    the first close frame captures. *)
Theorem revert_on_lost_tracking_keeps_autoCaptureFrameCount :
  let s := fst (feed justLocked (repeat nearFrame 59 ++ repeat emptyFrame 13)) in
  phase (fst (feed justLocked (repeat nearFrame 59 ++ repeat emptyFrame 12))) = Locked /\
  phase s = Guide /\
  closeFrameCount s = 0 /\ disengageCount s = 0 /\ missCount s = 0 /\
  lastLandmarks s = None /\ animationStart s = None /\
  hasAutoCaptured s = false /\
  autoCaptureFrameCount s = 59 /\
  snd (feed s [alignedFrame; nearFrame]) = [[]; [true]].
Proof. vm_compute. repeat split; reflexivity. Qed.

(** The same run ending in 13 frames with a small face reverts through
    the not-close branch, which zeroes [autoCaptureFrameCount]. *)
Lemma revert_on_far_face_zeroes_autoCaptureFrameCount :
  let s := fst (feed justLocked (repeat nearFrame 59 ++ repeat smallFrame 13)) in
  phase s = Guide /\ autoCaptureFrameCount s = 0.
Proof. vm_compute. split; reflexivity. Qed.

(** ** Alignment evaluator against its contract *)

Local Open Scope float_scope.

(** C7, as stated, fails: with one point whose [x] is NaN next to two
    finite points spanning the frame, the contract's verdict over the
    finite pairs is aligned and close, and [evaluateAlignment] rejects. *)
Lemma nan_point_spoils_verdict :
  evaluateAlignment [point 0.2 0.2; point 0.8 0.8; point nan 0.5] = rejected /\
  evaluateAlignment_spec [point 0.2 0.2; point 0.8 0.8; point nan 0.5] =
    {| isAligned := true; isClose := true |} /\
  evaluateAlignment [point 0.2 0.2; point 0.8 0.8; point nan 0.5] <>
  evaluateAlignment_spec [point 0.2 0.2; point 0.8 0.8; point nan 0.5].
Proof.
  split; [vm_compute; reflexivity|]. split; [vm_compute; reflexivity|].
  intros H. vm_compute in H. discriminate.
Qed.

(** C7, amended. [evaluateAlignment] considers the points whose [x] and [y]
    are both numbers. When all of them have finite coordinates it returns
    the contract's verdict: rejection when there is no such point (the
    empty set included), and otherwise, for the bounding box of those
    points, [isClose] = width >= 0.30 and height >= 0.36, and [isAligned] =
    width >= 0.34, height >= 0.44 and centre within 0.12 of 0.5 on both
    axes. When one of them has a NaN or infinite coordinate it rejects. The
    box of the contract encloses the finite points and touches one on each
    side. *)
Theorem evaluateAlignment_contract_on_numeric_points :
  forall lm,
    evaluateAlignment lm =
      (if forallb finitePair (numericPairs lm)
       then evaluateAlignment_spec lm
       else rejected) /\
    (numericPairs lm = [] -> evaluateAlignment lm = rejected) /\
    (forall b, boundingBox (finitePairs lm) = Some b -> encloses b (finitePairs lm)).
Proof.
  intros lm. split; [apply evaluateAlignment_refines|]. split.
  - intros E. rewrite evaluateAlignment_refines, E. cbn.
    unfold evaluateAlignment_spec, finitePairs. now rewrite E.
  - intros b. apply boundingBox_encloses, finitePairs_all.
Qed.

Lemma evaluateAlignment_contract_on_numeric_points_witness :
  evaluateAlignment [None; Some (Landmark.mk None (Some 0.5))] = rejected /\
  encloses {| minX := 0.1; maxX := 0.42; minY := 0.1; maxY := 0.5 |} (finitePairs nearFace).
Proof.
  split.
  - refine (proj1 (proj2 (evaluateAlignment_contract_on_numeric_points
                            [None; Some (Landmark.mk None (Some 0.5))])) _).
    reflexivity.
  - refine (proj2 (proj2 (evaluateAlignment_contract_on_numeric_points nearFace)) _ _).
    vm_compute; reflexivity.
Defined.

(** ** Captured image *)

Local Open Scope Z_scope.

(** C9. Whenever [captureScreenshot] produces an image, its pixel size is
    [videoWidth] by [videoHeight] of the video, and it holds one drawing of
    the frame, mirrored left to right: the point of the frame at normalized
    [(x, y)] lands at normalized [(1 - x, y)] of the image. *)
Theorem capture_is_mirrored_at_video_size :
  forall autoUpload env a,
    captureScreenshot autoUpload env = Captured a ->
    exists v d,
      video env = Some v /\
      imageWidth a = videoWidth v /\ imageHeight a = videoHeight v /\
      content a = [d] /\
      autoUploaded a = autoUpload /\
      forall x y : Q,
        (fst (Canvas.lands d x y) == (1 - x) * inject_Z (imageWidth a))%Q /\
        (snd (Canvas.lands d x y) == y * inject_Z (imageHeight a))%Q.
Proof.
  intros autoUpload [[v|] on cc ctx blob] a; unfold captureScreenshot; cbn;
    [|discriminate].
  destruct (negb on || (videoWidth v =? 0) || (videoHeight v =? 0)); [discriminate|].
  destruct ctx; cbn; [|discriminate].
  destruct blob; [|discriminate].
  intros [= <-]. exists v. eexists. cbn.
  repeat split; cbn; ring.
Qed.

Lemma capture_is_mirrored_at_video_size_witness :
  exists v d,
    Some (mkVideo 960 720) = Some v /\
    960 = videoWidth v /\ 720 = videoHeight v /\
    Canvas.bitmap
      (Canvas.restore
         (Canvas.drawImage (- inject_Z 960) 0 (inject_Z 960) (inject_Z 720)
            (Canvas.scale (-1) 1
               (Canvas.save (Canvas.setHeight 720 (Canvas.setWidth 960 Canvas.create)))))) = [d] /\
    true = true /\
    forall x y : Q,
      (fst (Canvas.lands d x y) == (1 - x) * inject_Z 960)%Q /\
      (snd (Canvas.lands d x y) == y * inject_Z 720)%Q.
Proof.
  exact (capture_is_mirrored_at_video_size true
           (mkCaptureEnv (Some (mkVideo 960 720)) true None true true) _ eq_refl).
Defined.

(** ** More on the frame driver *)

Local Open Scope Z_scope.

Ltac settled_goal :=
  constructor; cbn in *; intros; zb;
  repeat match goal with
         | H : true = true -> _ |- _ => specialize (H eq_refl)
         | H : false = false -> _ |- _ => specialize (H eq_refl)
         | H : true = false -> _ |- _ => clear H
         | H : false = true -> _ |- _ => clear H
         end;
  try discriminate; intuition (try discriminate; try congruence; try lia).

Lemma Settled_stopCamera (s : Refs) : Settled s -> Settled (stopCamera s).
Proof.
  intros [Hg Hl Hf Hs]. destruct s. unfold_machine. cbn in *.
  split_ifs; settled_goal.
Qed.

Lemma Settled_startCamera (o : StartOutcome) (s : Refs) :
  Settled s -> Settled (startCamera o s).
Proof.
  intros [Hg Hl Hf Hs]. destruct s, o. all: unfold_machine; unfold stopCamera; cbn in *.
  all: split_ifs; settled_goal.
Qed.

Lemma Settled_applyDetection (t : float) (r : option FaceList) (s : Refs) :
  Settled s -> animationStart s <> None -> Settled (fst (applyDetection t r s)).
Proof.
  intros [Hg Hl Hf Hs] Han.
  destruct s as [on st ll mc an dc cc started hl latch ac msg].
  destruct r as [[|[face|] faces]|]; unfold_machine; cbn in *.
  all: try (destruct (evaluateAlignment face) as [al cl]; cbn).
  all: destruct ll, started, hl; cbn.
  all: walk_ifs.
  all: settled_goal.
Qed.

Lemma Settled_renderLoop (s : Refs) (f : Frame) :
  Settled s -> Settled (fst (renderLoop s f)).
Proof.
  intros H. unfold renderLoop.
  repeat match goal with
         | |- context [if ?c then _ else _] => destruct c; [exact H|]
         end.
  assert (H' : Settled (stampStart (now f) s) /\ animationStart (stampStart (now f) s) <> None).
  { unfold stampStart. destruct (animationStart s) eqn:E.
    - split; [exact H | congruence].
    - destruct H as [Hg Hl Hf Hs]. destruct s; cbn in *. split; [settled_goal | discriminate]. }
  destruct H' as [H' Han]. unfold detectAndUpdate.
  destruct (detection f) as [|r]; [exact H'|].
  pose proof (Settled_applyDetection (now f) r _ H' Han) as A.
  destruct (applyDetection (now f) r _) as [s' shots]. exact A.
Qed.

Lemma Reachable_Settled (s : Refs) : Reachable s -> Settled s.
Proof.
  induction 1 as [|s e R IH].
  - settled_goal.
  - destruct e; cbn; auto using Settled_startCamera, Settled_stopCamera, Settled_renderLoop.
Qed.

Lemma applyDetection_camera (t : float) (r : option FaceList) (s : Refs) :
  isCameraOn (fst (applyDetection t r s)) = isCameraOn s /\
  stream (fst (applyDetection t r s)) = stream s.
Proof.
  destruct s as [on st ll mc an dc cc started hl latch ac msg].
  destruct r as [[|[face|] faces]|]; unfold_machine; cbn.
  all: try (destruct (evaluateAlignment face) as [al cl]).
  all: destruct ll; walk_ifs; auto.
Qed.

Lemma stampStart_camera (t : float) (s : Refs) :
  isCameraOn (stampStart t s) = isCameraOn s /\ stream (stampStart t s) = stream s.
Proof. unfold stampStart. destruct (animationStart s); [now split|]. now destruct s. Qed.

Lemma renderLoop_camera (s : Refs) (f : Frame) :
  isCameraOn (fst (renderLoop s f)) = isCameraOn s /\
  stream (fst (renderLoop s f)) = stream s.
Proof.
  unfold renderLoop.
  repeat match goal with
         | |- context [if ?c then _ else _] => destruct c; [now split|]
         end.
  destruct (stampStart_camera (now f) s) as [A B].
  unfold detectAndUpdate. destruct (detection f) as [|r]; [now split|].
  destruct (applyDetection_camera (now f) r (stampStart (now f) s)) as [C D].
  destruct (applyDetection (now f) r (stampStart (now f) s)) as [s' shots].
  cbn in *. split; congruence.
Qed.

Lemma renderLoop_rescheduled (s : Refs) (f : Frame) :
  rescheduled (snd (renderLoop s f)) = isCameraOn s.
Proof.
  pose proof (renderLoop_camera s f) as [A _]. revert A.
  unfold renderLoop. destruct (isCameraOn s) eqn:Hon; cbn [negb]; cbv iota;
    [|reflexivity].
  repeat match goal with
         | |- context [if ?c then _ else _] => destruct c; [reflexivity|]
         end.
  unfold detectAndUpdate. destruct (detection f) as [|r]; [reflexivity|].
  destruct (applyDetection (now f) r (stampStart (now f) s)) as [s' shots].
  cbn. auto.
Qed.

(** X1. An iteration of [renderLoop] asks for the next one exactly when
    the camera is on, whatever the frame brings (missing canvas, video
    not ready, detection throwing or returning anything); it never changes
    the camera flag or the stream, and with the camera off it changes
    nothing at all. *)
Theorem renderLoop_keeps_running_while_camera_on :
  forall s f,
    rescheduled (snd (renderLoop s f)) = isCameraOn s /\
    isCameraOn (fst (renderLoop s f)) = isCameraOn s /\
    stream (fst (renderLoop s f)) = stream s /\
    (isCameraOn s = false -> renderLoop s f = (s, skipped false)).
Proof.
  intros s f.
  destruct (renderLoop_camera s f) as [A B].
  split; [apply renderLoop_rescheduled|]. split; [exact A|]. split; [exact B|].
  apply renderLoop_off.
Qed.

Lemma renderLoop_keeps_running_while_camera_on_witness :
  renderLoop initialRefs alignedFrame = (initialRefs, skipped false).
Proof.
  refine (proj2 (proj2 (proj2
            (renderLoop_keeps_running_while_camera_on initialRefs alignedFrame))) _).
  reflexivity.
Defined.

Lemma renderLoop_meshDrawn (s : Refs) (f : Frame) :
  meshDrawn (snd (renderLoop s f)) =
  isCameraOn s && returnsResult f && paints (fst (renderLoop s f)).
Proof.
  unfold renderLoop, returnsResult, reachesDetection.
  destruct (isCameraOn s); cbn [negb andb]; cbv iota; [|reflexivity].
  rewrite Z.ltb_antisym.
  destruct (hasBundle f), (hasVideo f), (hasCanvas f), (2 <=? readyState f),
    (hasContext f); cbn; try reflexivity.
  unfold detectAndUpdate. destruct (detection f) as [|r]; [reflexivity|].
  destruct (applyDetection (now f) r _) as [s' shots]. reflexivity.
Qed.

(** X2. In a reachable state the mesh is painted on an iteration exactly
    when the camera is on, the iteration got a detection result back, and
    the machine is [Locked] once the result is applied: never in [Guide],
    and not on an iteration that is skipped or whose detection throws. *)
Theorem mesh_is_painted_iff_locked :
  forall s f,
    Reachable s ->
    meshDrawn (snd (renderLoop s f)) =
    isCameraOn s && returnsResult f && hasAnimationStarted (fst (renderLoop s f)).
Proof.
  intros s f R. rewrite renderLoop_meshDrawn. f_equal.
  pose proof (Reachable_renderLoop s f R) as R'.
  pose proof (Reachable_Inv _ R') as I. pose proof (Reachable_Settled _ R') as S.
  unfold paints. destruct (hasAnimationStarted (fst (renderLoop s f))) eqn:E.
  - destruct (inv_locked _ I E) as [A _]. pose proof (settled_faces _ S) as B.
    destruct (lastLandmarks (fst (renderLoop s f))) as [[|? ?]|];
      [now elim B | reflexivity | now elim A].
  - destruct (lastLandmarks (fst (renderLoop s f))) as [[|? ?]|]; reflexivity.
Qed.

Lemma mesh_is_painted_iff_locked_witness :
  meshDrawn (snd (renderLoop justLocked (throwingAt 80))) = false /\
  meshDrawn (snd (renderLoop justLocked nearFrame)) = true.
Proof.
  split.
  - rewrite (mesh_is_painted_iff_locked justLocked (throwingAt 80)).
    + vm_compute; reflexivity.
    + apply Reachable_session.
  - rewrite (mesh_is_painted_iff_locked justLocked nearFrame).
    + vm_compute; reflexivity.
    + apply Reachable_session.
Defined.

(** X4. In every reachable state the counters rest outside their phase:
    in [Guide] [disengageCount] is 0; in [Locked] [closeFrameCount] is 0,
    the guide highlight is off, the animation start is set and the
    retained face list is not empty. *)
Theorem counters_rest_outside_their_phase :
  forall s,
    Reachable s ->
    (phase s = Guide -> disengageCount s = 0) /\
    (phase s = Locked ->
       closeFrameCount s = 0 /\ guideHighlighted s = false /\
       animationStart s <> None /\
       exists face faces, lastLandmarks s = Some (face :: faces)).
Proof.
  intros s R. pose proof (Reachable_Inv s R) as I. pose proof (Reachable_Settled s R) as S.
  unfold phase. destruct (hasAnimationStarted s) eqn:E; split; intros H; try discriminate.
  - destruct (settled_locked s S E) as (A & B & C).
    destruct (inv_locked s I E) as [D _]. pose proof (settled_faces s S) as F.
    split; [exact A|]. split; [exact B|]. split; [exact C|].
    destruct (lastLandmarks s) as [[|face faces]|];
      [now elim F | eauto | now elim D].
  - exact (settled_guide s S E).
Qed.

Lemma counters_rest_outside_their_phase_witness :
  disengageCount (fst (feed justLocked (repeat emptyFrame 13))) = 0 /\
  closeFrameCount (fst (feed (session [Start Playing]) (repeat nearFrame 6))) = 0.
Proof.
  split.
  - refine (proj1 (counters_rest_outside_their_phase
                     (fst (feed justLocked (repeat emptyFrame 13))) _) _).
    + apply Reachable_feed, Reachable_session.
    + vm_compute; reflexivity.
  - refine (proj1 (proj2 (counters_rest_outside_their_phase
                     (fst (feed (session [Start Playing]) (repeat nearFrame 6))) _) _)).
    + apply Reachable_feed, Reachable_session.
    + vm_compute; reflexivity.
Defined.





(** *** Missed detections in Guide *)

Lemma guide_miss_with_landmarks (s : Refs) (f : Frame) (faces : FaceList) :
  isCameraOn s = true -> hasAnimationStarted s = false ->
  lastLandmarks s = Some faces -> emptyDetection f = true ->
  let s' := fst (renderLoop s f) in
  isCameraOn s' = true /\ hasAnimationStarted s' = false /\
  missCount s' = missCount s + 1 /\
  lastLandmarks s' = if missCount s + 1 >? MAX_MISS_COUNT then None else Some faces.
Proof.
  intros Hon Hg Hll Hf. destruct (emptyDetection_cases f Hf) as [Hr Hd].
  rewrite (renderLoop_reaches s f Hon Hr). unfold detectAndUpdate.
  destruct s as [on st ll mc an dc cc started hl latch ac msg]. cbn in Hon, Hg, Hll. subst.
  destruct Hd as [->| ->]; unfold_machine; destruct an; walk_ifs; auto.
Qed.

Lemma guide_miss_without_landmarks (s : Refs) (f : Frame) :
  isCameraOn s = true -> hasAnimationStarted s = false ->
  lastLandmarks s = None -> emptyDetection f = true ->
  let s' := fst (renderLoop s f) in
  isCameraOn s' = true /\ hasAnimationStarted s' = false /\ lastLandmarks s' = None.
Proof.
  intros Hon Hg Hll Hf. destruct (emptyDetection_cases f Hf) as [Hr Hd].
  rewrite (renderLoop_reaches s f Hon Hr). unfold detectAndUpdate.
  destruct s as [on st ll mc an dc cc started hl latch ac msg]. cbn in Hon, Hg, Hll. subst.
  destruct Hd as [->| ->]; unfold_machine; destruct an, hl; walk_ifs; auto.
Qed.

Lemma retaining_feed (fs : list Frame) (s : Refs) (faces : FaceList) :
  isCameraOn s = true -> hasAnimationStarted s = false ->
  lastLandmarks s = Some faces ->
  Forall (fun f => emptyDetection f = true) fs ->
  missCount s + Z.of_nat (length fs) <= MAX_MISS_COUNT ->
  let s' := fst (feed s fs) in
  isCameraOn s' = true /\ hasAnimationStarted s' = false /\
  lastLandmarks s' = Some faces /\
  missCount s' = missCount s + Z.of_nat (length fs).
Proof.
  revert s. induction fs as [|f fs IH]; intros s Hon Hg Hll Hfs Hle.
  - cbn. repeat split; auto. lia.
  - inversion Hfs as [|? ? Hf Hfs']; subst.
    cbn [length] in Hle. rewrite Nat2Z.inj_succ in Hle.
    destruct (guide_miss_with_landmarks s f faces Hon Hg Hll Hf) as (A & B & C & D).
    replace (missCount s + 1 >? MAX_MISS_COUNT) with false in D
      by (symmetry; rewrite Z.gtb_ltb; apply Z.ltb_ge; lia).
    rewrite feed_cons. cbn [fst].
    destruct (IH _ A B D Hfs') as (E1 & E2 & E3 & E4); [lia|].
    cbn [length]. rewrite Nat2Z.inj_succ. repeat split; auto. lia.
Qed.

Lemma dropped_feed (fs : list Frame) (s : Refs) :
  isCameraOn s = true -> hasAnimationStarted s = false -> lastLandmarks s = None ->
  Forall (fun f => emptyDetection f = true) fs ->
  lastLandmarks (fst (feed s fs)) = None.
Proof.
  revert s. induction fs as [|f fs IH]; intros s Hon Hg Hll Hfs; [exact Hll|].
  inversion Hfs as [|? ? Hf Hfs']; subst.
  destruct (guide_miss_without_landmarks s f Hon Hg Hll Hf) as (A & B & C).
  rewrite feed_cons. cbn [fst]. now apply IH.
Qed.

(** X3. In [Guide], the face list of the last detection is kept through 45
    consecutive iterations whose detection returns no face, and dropped on
    the 46th; it stays dropped while no face is returned. *)
Theorem landmarks_survive_45_misses :
  (forall s faces fs,
      isCameraOn s = true -> phase s = Guide ->
      lastLandmarks s = Some faces -> missCount s = 0 ->
      Forall (fun f => emptyDetection f = true) fs -> (length fs <= 45)%nat ->
      lastLandmarks (fst (feed s fs)) = Some faces) /\
  (forall s faces fs,
      isCameraOn s = true -> phase s = Guide ->
      lastLandmarks s = Some faces -> missCount s = 0 ->
      Forall (fun f => emptyDetection f = true) fs -> (46 <= length fs)%nat ->
      lastLandmarks (fst (feed s fs)) = None).
Proof.
  assert (P : forall s, phase s = Guide -> hasAnimationStarted s = false).
  { intros s. unfold phase. now destruct (hasAnimationStarted s). }
  split; intros s faces fs Hon Hg Hll H0 Hfs Hlen; apply P in Hg.
  - destruct (retaining_feed fs s faces Hon Hg Hll Hfs) as (_ & _ & A & _); auto.
    rewrite H0. unfold MAX_MISS_COUNT. lia.
  - pose proof (firstn_skipn 45 fs) as Efs.
    assert (L1 : length (firstn 45 fs) = 45%nat) by (rewrite length_firstn; lia).
    assert (L2 : length (skipn 45 fs) = (length fs - 45)%nat) by apply length_skipn.
    destruct (skipn 45 fs) as [|f rest]; [cbn in L2; lia|].
    rewrite <- Efs in Hfs |- *. clear Efs.
    remember (firstn 45 fs) as hd eqn:Ehd. clear Ehd.
    apply Forall_app in Hfs. destruct Hfs as [Hhead Htail].
    inversion Htail as [|? ? Hf Hrest]; subst.
    destruct (retaining_feed hd s faces Hon Hg Hll Hhead) as (A & B & C & D).
    { rewrite H0, L1. unfold MAX_MISS_COUNT. lia. }
    rewrite feed_app, feed_cons. cbn [fst].
    destruct (guide_miss_with_landmarks _ f faces A B C Hf) as (A' & B' & _ & D').
    rewrite D, H0, L1 in D'. cbn in D'.
    now apply dropped_feed.
Qed.

Lemma landmarks_survive_45_misses_witness :
  lastLandmarks (fst (feed (session [Start Playing; Tick smallFrame]) (repeat emptyFrame 45))) =
    Some [Some smallFace] /\
  lastLandmarks (fst (feed (session [Start Playing; Tick smallFrame]) (repeat emptyFrame 46))) =
    None.
Proof.
  destruct landmarks_survive_45_misses as [H1 H2]. split.
  - apply (H1 (session [Start Playing; Tick smallFrame]) [Some smallFace] (repeat emptyFrame 45)).
    + vm_compute; reflexivity.
    + vm_compute; reflexivity.
    + vm_compute; reflexivity.
    + vm_compute; reflexivity.
    + apply all_repeat. vm_compute; reflexivity.
    + rewrite repeat_length. lia.
  - apply (H2 (session [Start Playing; Tick smallFrame]) [Some smallFace] (repeat emptyFrame 46)).
    + vm_compute; reflexivity.
    + vm_compute; reflexivity.
    + vm_compute; reflexivity.
    + vm_compute; reflexivity.
    + apply all_repeat. vm_compute; reflexivity.
    + rewrite repeat_length. lia.
Defined.

(** ** More on the capture pipeline *)

(** X7. A capture does not depend on the canvas cached by earlier captures:
    with or without one, and whatever was drawn on it or left in its
    transform, the result is the same. It yields an image only with the
    camera on, a 2D context and a blob, and never one of width or height 0. *)
Theorem capture_ignores_cached_canvas :
  (forall autoUpload env c,
      captureScreenshot autoUpload (withCachedCanvas c env) =
      captureScreenshot autoUpload env) /\
  (forall autoUpload env a,
      captureScreenshot autoUpload env = Captured a ->
      cameraOn env = true /\ contextAvailable env = true /\ blobCreated env = true /\
      imageWidth a <> 0 /\ imageHeight a <> 0).
Proof.
  split.
  - intros autoUpload [[v|] on cc ctx blob] c; unfold captureScreenshot, withCachedCanvas;
      cbn; [|reflexivity].
    destruct (negb on || (videoWidth v =? 0) || (videoHeight v =? 0)); [reflexivity|].
    destruct cc as [c0|], c as [c1|]; reflexivity.
  - intros autoUpload [[v|] on cc ctx blob] a; unfold captureScreenshot; cbn;
      [|discriminate].
    destruct on; cbn; [|discriminate].
    destruct (videoWidth v =? 0) eqn:W; cbn; [discriminate|].
    destruct (videoHeight v =? 0) eqn:H; cbn; [discriminate|].
    destruct ctx; cbn; [|discriminate]. destruct blob; [|discriminate].
    intros [= <-]. cbn. apply Z.eqb_neq in W, H. auto.
Qed.

Lemma capture_ignores_cached_canvas_witness :
  cameraOn (mkCaptureEnv (Some (mkVideo 960 720)) true None true true) = true.
Proof.
  destruct capture_ignores_cached_canvas as [_ H].
  refine (proj1 (H true (mkCaptureEnv (Some (mkVideo 960 720)) true None true true) _ _)).
  reflexivity.
Defined.

(** ** The verdict and the order of the landmarks *)

Ltac sf_compare_cases :=
  repeat (cbn;
          match goal with
          | |- context [Z.compare ?a ?b] => destruct (Z.compare_spec a b); subst
          | |- context [Pos.compare_cont Eq ?a ?b] =>
              change (Pos.compare_cont Eq a b) with (Pos.compare a b);
              destruct (Pos.compare_spec a b); subst
          end);
  cbn; try reflexivity; try (exfalso; lia).

Lemma SFmin_swap (m a b : spec_float) :
  SF.min (SF.min m a) b = SF.min (SF.min m b) a.
Proof.
  unfold SF.min.
  destruct m as [sm|sm| |sm mm em], a as [sa|sa| |sa ma ea], b as [sb|sb| |sb mb eb];
    try destruct sm; try destruct sa; try destruct sb; cbn; try reflexivity.
  all: sf_compare_cases.
Qed.

Lemma SFmax_swap (m a b : spec_float) :
  SF.max (SF.max m a) b = SF.max (SF.max m b) a.
Proof.
  unfold SF.max.
  destruct m as [sm|sm| |sm mm em], a as [sa|sa| |sa ma ea], b as [sb|sb| |sb mb eb];
    try destruct sm; try destruct sa; try destruct sb; cbn; try reflexivity.
  all: sf_compare_cases.
Qed.

Lemma Math_min_swap (m a b : float) :
  Math_min (Math_min m a) b = Math_min (Math_min m b) a.
Proof. apply Prim2SF_inj. rewrite !Math_min_spec. apply SFmin_swap. Qed.

Lemma Math_max_swap (m a b : float) :
  Math_max (Math_max m a) b = Math_max (Math_max m b) a.
Proof. apply Prim2SF_inj. rewrite !Math_max_spec. apply SFmax_swap. Qed.

Lemma extendPair_swap (b : Bounds) (p q : float * float) :
  extendPair (extendPair b p) q = extendPair (extendPair b q) p.
Proof.
  unfold extendPair, extend; cbn [minX maxX minY maxY].
  now rewrite (Math_min_swap (minX b)), (Math_max_swap (maxX b)),
    (Math_min_swap (minY b)), (Math_max_swap (maxY b)).
Qed.

Lemma fold_extendPair_permutation (l l' : list (float * float)) :
  Permutation l l' ->
  forall b, fold_left extendPair l b = fold_left extendPair l' b.
Proof.
  induction 1 as [|p l l' _ IH|p q l|l l' l'' _ IH1 _ IH2]; intros b; cbn.
  - reflexivity.
  - apply IH.
  - now rewrite extendPair_swap.
  - now rewrite IH1, IH2.
Qed.

(** X8. The verdict depends only on which points have a numeric [x] and
    [y], not on their order nor on the other entries: two landmark sets
    whose numeric points are the same up to order get the same verdict, so
    entries that are missing or lack a numeric coordinate can be added,
    removed or moved freely. *)
Theorem verdict_ignores_order_and_malformed_points :
  forall lm lm',
    Permutation (numericPairs lm) (numericPairs lm') ->
    evaluateAlignment lm = evaluateAlignment lm'.
Proof.
  intros lm lm' H. rewrite !evaluateAlignment_scan. cbv zeta.
  now rewrite (fold_extendPair_permutation _ _ H emptyBounds).
Qed.

Lemma verdict_ignores_order_and_malformed_points_witness :
  evaluateAlignment
    [None; point 0.42 0.5; Some (Landmark.mk (Some 0.9%float) None); point 0.1 0.1] =
  evaluateAlignment nearFace.
Proof.
  apply verdict_ignores_order_and_malformed_points. cbn. apply perm_swap.
Defined.

(** ** Stored capture history *)

Lemma cap_ten {A} (m : A) (l : list A) :
  (length l <= 10)%nat ->
  (if (10 <? length (m :: l))%nat then removelast (m :: l) else m :: l) = firstn 10 (m :: l).
Proof.
  intros H. destruct (10 <? length (m :: l))%nat eqn:E.
  - apply Nat.ltb_lt in E. cbn [length] in E.
    rewrite removelast_firstn_len. f_equal. cbn [length]. lia.
  - apply Nat.ltb_ge in E. symmetry. now apply firstn_all2.
Qed.

Lemma firstn_app_firstn {A} (n : nat) (h l : list A) :
  firstn n (h ++ firstn n l) = firstn n (h ++ l).
Proof.
  rewrite !firstn_app, firstn_firstn. do 2 f_equal. lia.
Qed.

Lemma saveAll_from_images (images : list ImageHandler.SavedImage)
    (l : list ImageHandler.Metadata) :
  (length l <= 10)%nat ->
  ImageHandler.saveAll images (ImageHandler.Images l) =
  ImageHandler.Images (firstn 10 (rev (map ImageHandler.metadataOf images) ++ l)).
Proof.
  unfold ImageHandler.saveAll. revert l.
  induction images as [|image images IH]; intros l Hl.
  - cbn [fold_left map rev app]. now rewrite firstn_all2.
  - cbn [fold_left map rev]. unfold ImageHandler.saveImageMetadata at 2.
    rewrite (cap_ten _ l Hl). rewrite IH by (rewrite length_firstn; lia).
    rewrite <- app_assoc. cbn [app]. now rewrite firstn_app_firstn.
Qed.

(** X9. [saveImageMetadata] keeps a history of the ten most recent
    captures, newest first: starting from an empty or absent item, after
    any number of saves the stored array is the metadata of the last ten
    images saved, in reverse order of saving. An item that cannot be read
    as an array is left as it is, and so is the item when the write hits
    the storage quota. *)
Theorem saved_history_is_last_ten_newest_first :
  (forall images,
      ImageHandler.saveAll images ImageHandler.Absent =
      match images with
      | [] => ImageHandler.Absent
      | _ => ImageHandler.Images (firstn 10 (rev (map ImageHandler.metadataOf images)))
      end) /\
  (forall images l,
      (length l <= 10)%nat ->
      ImageHandler.saveAll images (ImageHandler.Images l) =
      ImageHandler.Images (firstn 10 (rev (map ImageHandler.metadataOf images) ++ l))) /\
  (forall quotaExceeded image,
      ImageHandler.saveImageMetadata quotaExceeded image ImageHandler.Unusable =
      ImageHandler.Unusable) /\
  (forall image item, ImageHandler.saveImageMetadata true image item = item).
Proof.
  split; [|split; [|split]].
  - intros [|image images]; [reflexivity|].
    unfold ImageHandler.saveAll. cbn [fold_left].
    change (ImageHandler.saveImageMetadata false image ImageHandler.Absent)
      with (ImageHandler.Images [ImageHandler.metadataOf image]).
    fold (ImageHandler.saveAll images (ImageHandler.Images [ImageHandler.metadataOf image])).
    rewrite saveAll_from_images by (cbn; lia).
    cbn [map rev]. reflexivity.
  - exact saveAll_from_images.
  - reflexivity.
  - intros image [| |l]; reflexivity.
Qed.

Lemma saved_history_is_last_ten_newest_first_witness :
  ImageHandler.saveAll
    [ImageHandler.mkSavedImage "c.png" "/captured-images/c.png"
       (ImageHandler.mkBlob "image/png" 3) "data:" 3]
    (ImageHandler.Images
       [ImageHandler.mkMetadata "b.png" "/captured-images/b.png" 2 "data:...";
        ImageHandler.mkMetadata "a.png" "/captured-images/a.png" 1 "data:..."]) =
  ImageHandler.Images
    [ImageHandler.mkMetadata "c.png" "/captured-images/c.png" 3 "data:...";
     ImageHandler.mkMetadata "b.png" "/captured-images/b.png" 2 "data:...";
     ImageHandler.mkMetadata "a.png" "/captured-images/a.png" 1 "data:..."].
Proof.
  destruct saved_history_is_last_ten_newest_first as (_ & H & _).
  rewrite H; [reflexivity | cbn; lia].
Defined.

(** ** Radar chart *)

Local Open Scope float_scope.

Lemma SFltb_irrefl (x : spec_float) : SFltb x x = false.
Proof.
  unfold SFltb. destruct (SF.is_nan x) eqn:E.
  - destruct x; try discriminate. reflexivity.
  - now rewrite SFcompare_refl.
Qed.

Lemma SFnot_ltb_leb (x y : spec_float) :
  SF.is_nan x = false -> SF.is_nan y = false -> SFltb x y = false -> SFleb y x = true.
Proof.
  intros Hx Hy. unfold SFltb, SFleb. rewrite (SFcompare_antisym x y).
  destruct (SFcompare x y) as [[| |]|] eqn:C; cbn; try discriminate; try reflexivity.
  destruct (SFcompare_None _ _ C); congruence.
Qed.

Lemma SFltb_leb (x y : spec_float) : SFltb x y = true -> SFleb x y = true.
Proof. unfold SFltb, SFleb. now destruct (SFcompare x y) as [[| |]|]. Qed.

Lemma SFleb_ltb_trans (a b c : spec_float) :
  implb (SFleb a b && SFltb b c) (SFltb a c) = true.
Proof.
  unfold SFleb, SFltb.
  destruct a as [sa|sa| |sa ma ea], b as [sb|sb| |sb mb eb], c as [sc|sc| |sc mc ec];
    try destruct sa; try destruct sb; try destruct sc; cbn; try reflexivity.
  all: sf_compare_cases.
Qed.

Lemma leb_ltb_trans (a b c : float) :
  (a <=? b) = true -> (b <? c) = true -> (a <? c) = true.
Proof.
  rewrite leb_spec, !ltb_spec. intros H1 H2.
  pose proof (SFleb_ltb_trans (Prim2SF a) (Prim2SF b) (Prim2SF c)) as T.
  now rewrite H1, H2 in T.
Qed.

Lemma ltb_irrefl (a : float) : (a <? a) = false.
Proof. rewrite ltb_spec. apply SFltb_irrefl. Qed.

Lemma ltb_leb (a b : float) : (a <? b) = true -> (a <=? b) = true.
Proof. rewrite ltb_spec, leb_spec. apply SFltb_leb. Qed.

Lemma not_ltb_leb (a b : float) :
  is_nan a = false -> is_nan b = false -> (a <? b) = false -> (b <=? a) = true.
Proof. rewrite !is_nan_spec, ltb_spec, leb_spec. apply SFnot_ltb_leb. Qed.

Lemma leb_refl_not_nan (a : float) : is_nan a = false -> (a <=? a) = true.
Proof. rewrite is_nan_spec, leb_spec. apply SFleb_refl. Qed.

Section Dominant.
Import SkinConcernChart.

Let below (d c : ConcernScore) : Prop := (uiScore c <? uiScore d) = true.
Let atMost (d c : ConcernScore) : Prop := (uiScore c <=? uiScore d) = true.
Let scored (c : ConcernScore) : Prop := is_nan (uiScore c) = false.

Lemma higher_scan (rest before mid : list ConcernScore) (d : ConcernScore) :
  scored d -> Forall scored rest ->
  Forall (below d) before -> Forall (atMost d) mid ->
  exists before' d' mid',
    before ++ d :: mid ++ rest = before' ++ d' :: mid' /\
    fold_left higher rest d = d' /\
    Forall (below d') before' /\ Forall (atMost d') mid'.
Proof.
  revert before mid d. induction rest as [|cur rest IH]; intros before mid d Hd Hr Hb Hm.
  - exists before, d, mid. rewrite app_nil_r. auto.
  - inversion Hr as [|? ? Hcur Hrest]; subst. cbn [fold_left]. unfold higher at 2.
    destruct (uiScore d <? uiScore cur) eqn:E.
    + destruct (IH (before ++ d :: mid) [] cur Hcur Hrest) as (b' & d' & m' & A & B & C & D).
      * apply Forall_app. split; [|constructor].
        -- eapply Forall_impl; [|exact Hb]. intros c Hc. unfold below in *.
           eapply leb_ltb_trans; [apply ltb_leb; exact Hc | exact E].
        -- exact E.
        -- eapply Forall_impl; [|exact Hm]. intros c Hc. unfold below, atMost in *.
           eapply leb_ltb_trans; [exact Hc | exact E].
      * constructor.
      * exists b', d', m'. split; [|auto].
        rewrite <- A. rewrite <- !app_assoc. reflexivity.
    + destruct (IH before (mid ++ [cur]) d Hd Hrest Hb) as (b' & d' & m' & A & B & C & D).
      * apply Forall_app. split; [exact Hm|]. constructor; [|constructor].
        unfold atMost. now apply not_ltb_leb.
      * exists b', d', m'. split; [|auto].
        rewrite <- A. rewrite <- !app_assoc. reflexivity.
Qed.

Lemma higher_keeps_nan (l : list ConcernScore) (d : ConcernScore) :
  is_nan (uiScore d) = true -> fold_left higher l d = d.
Proof.
  intros H. induction l as [|c l IH]; [reflexivity|].
  cbn [fold_left]. unfold higher at 2.
  replace (uiScore d <? uiScore c) with false; [exact IH|].
  symmetry. rewrite ltb_spec. rewrite is_nan_spec in H. unfold SFltb.
  now destruct (Prim2SF (uiScore d)).
Qed.

(** X10. The chart's primary concern is the first concern with the highest
    [uiScore]: when no score is NaN, every concern before it scores
    strictly less and every concern after it scores at most as much. With
    no concern there is none. A first concern whose score is NaN is
    reported as primary whatever the others score. *)
Theorem dominantConcern_is_first_highest :
  dominantConcern [] = None /\
  (forall first rest,
      is_nan (uiScore first) = true -> dominantConcern (first :: rest) = Some first) /\
  (forall concerns,
      concerns <> [] ->
      Forall (fun c => is_nan (uiScore c) = false) concerns ->
      exists before d after,
        concerns = before ++ d :: after /\
        dominantConcern concerns = Some d /\
        Forall (fun c => (uiScore c <? uiScore d) = true) before /\
        Forall (fun c => (uiScore c <=? uiScore d) = true) after).
Proof.
  split; [reflexivity|]. split.
  - intros first rest H. unfold dominantConcern. f_equal.
    now apply higher_keeps_nan.
  - intros [|first rest] Hne Hs; [congruence|].
    inversion Hs as [|? ? Hf Hr]; subst.
    destruct (higher_scan rest [] [] first Hf Hr) as (b & d & m & A & B & C & D);
      [constructor | constructor |].
    exists b, d, m. split; [exact A|]. split; [|split; assumption].
    unfold dominantConcern. cbn [fold_left]. unfold higher at 2.
    rewrite ltb_irrefl. now rewrite B.
Qed.

End Dominant.

Lemma dominantConcern_is_first_highest_witness :
  SkinConcernChart.dominantConcern
    [SkinConcernChart.mkConcernScore "redness" "Redness" nan 74;
     SkinConcernChart.mkConcernScore "pore" "Pore" 99 99] =
  Some (SkinConcernChart.mkConcernScore "redness" "Redness" nan 74) /\
  exists before d after,
    [SkinConcernChart.mkConcernScore "redness" "Redness" 78 74;
     SkinConcernChart.mkConcernScore "pore" "Pore" 99 99;
     SkinConcernChart.mkConcernScore "acne" "Acne" 99 100] = before ++ d :: after /\
    SkinConcernChart.dominantConcern
      [SkinConcernChart.mkConcernScore "redness" "Redness" 78 74;
       SkinConcernChart.mkConcernScore "pore" "Pore" 99 99;
       SkinConcernChart.mkConcernScore "acne" "Acne" 99 100] = Some d /\
    Forall (fun c => (SkinConcernChart.uiScore c <? SkinConcernChart.uiScore d) = true) before /\
    Forall (fun c => (SkinConcernChart.uiScore c <=? SkinConcernChart.uiScore d) = true) after.
Proof.
  destruct dominantConcern_is_first_highest as (_ & H1 & H2). split.
  - apply H1. reflexivity.
  - apply H2; [discriminate|].
    repeat constructor.
Defined.

Lemma SFclamp_below (m1 : positive) (e1 : Z) (q : spec_float) :
  SF.is_nan q = false ->
  SFleb (S754_zero false)
        (SF.max (S754_zero false) (SF.min (S754_finite false m1 e1) q)) = true /\
  SFleb (SF.max (S754_zero false) (SF.min (S754_finite false m1 e1) q))
        (S754_finite false m1 e1) = true.
Proof.
  unfold SFleb, SF.max, SF.min.
  destruct q as [s|s| |s m e]; try destruct s; cbn; try discriminate; auto; intros _.
  all: split; sf_compare_cases.
Qed.

(** X11. The radius fraction of a concern on the chart is clamped to the
    unit interval: unless [uiScore / 100] is NaN, [magnitude] lies between
    0 and 1, whatever the score (negative, above 100, infinite); a NaN
    quotient makes it NaN. *)
Theorem magnitude_is_clamped :
  forall concern,
    (is_nan (SkinConcernChart.uiScore concern / 100) = false ->
       (0 <=? SkinConcernChart.magnitude concern) = true /\
       (SkinConcernChart.magnitude concern <=? 1) = true) /\
    (is_nan (SkinConcernChart.uiScore concern / 100) = true ->
       is_nan (SkinConcernChart.magnitude concern) = true).
Proof.
  intros concern. unfold SkinConcernChart.magnitude.
  set (q := SkinConcernChart.uiScore concern / 100). clearbody q.
  rewrite !is_nan_spec, !leb_spec, Math_max_spec, Math_min_spec.
  change (Prim2SF 0) with (S754_zero false).
  change (Prim2SF 1) with (S754_finite false 4503599627370496 (-52)).
  generalize 4503599627370496%positive, (-52)%Z. intros m1 e1. split.
  - apply SFclamp_below.
  - destruct (Prim2SF q); try discriminate. reflexivity.
Qed.

Lemma magnitude_is_clamped_witness :
  (0 <=? SkinConcernChart.magnitude
           (SkinConcernChart.mkConcernScore "pore" "Pore" 250 99)) = true /\
  (SkinConcernChart.magnitude
     (SkinConcernChart.mkConcernScore "pore" "Pore" 250 99) <=? 1) = true.
Proof.
  apply (proj1 (magnitude_is_clamped
                  (SkinConcernChart.mkConcernScore "pore" "Pore" 250 99))).
  vm_compute; reflexivity.
Defined.

(** ** Connector lists *)

Section ConnectorFacts.
Variable coerce : Js.Value -> float.

Lemma connector_wellFormed (a b : float) :
  is_finite a && is_finite b = true -> wellFormedConnector (connector a b).
Proof. rewrite andb_true_iff. intros [Ha Hb]. now exists a, b. Qed.

Lemma fromEntry_wellFormed (entry : Js.Value) :
  Forall wellFormedConnector (fromEntry coerce entry).
Proof.
  destruct entry as [| | | | |[|a [|b rest]]| |fields]; cbn; try constructor.
  - destruct (is_finite (toNumber coerce a) && is_finite (toNumber coerce b)) eqn:E;
      constructor; [now apply connector_wellFormed | constructor].
  - destruct (Js.lookup "start" fields) as [s|]; [|constructor].
    destruct (Js.lookup "end" fields) as [e|]; [|constructor].
    destruct (is_finite (toNumber coerce s) && is_finite (toNumber coerce e)) eqn:E;
      constructor; [now apply connector_wellFormed | constructor].
Qed.

Lemma fromFlat_wellFormed (l : list Js.Value) :
  Forall wellFormedConnector (fromFlat coerce l).
Proof.
  assert (H : forall n (l : list Js.Value), (length l <= n)%nat ->
                Forall wellFormedConnector (fromFlat coerce l)).
  { induction n as [|n IH]; intros [|a [|b rest]] Hl; cbn in *; try constructor; try lia.
    apply Forall_app. split.
    - destruct (is_finite (toNumber coerce a) && is_finite (toNumber coerce b)) eqn:E;
        constructor; [now apply connector_wellFormed | constructor].
    - apply IH. lia. }
  exact (H (length l) l (le_n _)).
Qed.

Lemma flat_map_wellFormed (items : list Js.Value) :
  Forall wellFormedConnector (flat_map (fromEntry coerce) items).
Proof.
  induction items as [|e items IH]; cbn; [constructor|].
  apply Forall_app. split; [apply fromEntry_wellFormed | exact IH].
Qed.

End ConnectorFacts.

(** X12. Unless the array shortcut applies, every entry that
    [normalizeConnectorList] returns is a two-element array of finite
    numbers, whatever the input holds. When the first entry of an array is
    already such a pair, the array is returned as it is, so that later
    entries are not checked. *)
Theorem normalized_connectors_are_finite_pairs :
  (forall coerce connectors out,
      normalizeConnectorList coerce connectors = Some out ->
      takenAsIs coerce connectors = false ->
      Forall wellFormedConnector out) /\
  (forall coerce first rest,
      isPairArray coerce first = true ->
      normalizeConnectorList coerce (Js.Array (first :: rest)) = Some (first :: rest)).
Proof.
  split.
  - intros coerce connectors out. unfold normalizeConnectorList, takenAsIs.
    destruct (negb (Js.truthy connectors)); [intros [= <-] _; constructor|].
    destruct connectors as [| | | | |items|numbers|fields]; try (intros [= <-] _; constructor).
    + intros H T.
      assert (E : match items with first :: _ => isPairArray coerce first | [] => false end
                  = false) by (destruct items; [reflexivity | exact T]).
      rewrite E in H.
      pose proof (flat_map_wellFormed coerce items) as W.
      destruct (flat_map (fromEntry coerce) items) as [|n ns]; injection H as <-;
        [apply fromFlat_wellFormed | exact W].
    + intros [= <-] _. apply fromFlat_wellFormed.
    + destruct (Js.lookup "length" fields); [discriminate|]. intros [= <-] _. constructor.
  - intros coerce first rest H. unfold normalizeConnectorList. cbn. now rewrite H.
Qed.

Lemma normalized_connectors_are_finite_pairs_witness :
  Forall wellFormedConnector
    [connector 1 2] /\
  normalizeConnectorList (fun _ => nan)
    (Js.Array [connector 0 1; Js.Text "junk"]) =
  Some [connector 0 1; Js.Text "junk"].
Proof.
  destruct normalized_connectors_are_finite_pairs as [H1 H2]. split.
  - apply (H1 (fun _ => nan)
              (Js.Array [Js.Null; connection 1 2; Js.Array [Js.Number 3]])).
    + vm_compute; reflexivity.
    + vm_compute; reflexivity.
  - apply H2. vm_compute; reflexivity.
Defined.

Lemma fromFlat_numbers (coerce : Js.Value -> float) (numbers : list float) :
  fromFlat coerce (map Js.Number numbers) =
  map (fun p => connector (fst p) (snd p)) (filter finiteEnds (pairUp numbers)).
Proof.
  assert (H : forall n (l : list float), (length l <= n)%nat ->
                fromFlat coerce (map Js.Number l) =
                map (fun p => connector (fst p) (snd p)) (filter finiteEnds (pairUp l))).
  { induction n as [|n IH]; intros [|a [|b rest]] Hl; cbn in *; try reflexivity; try lia.
    unfold finiteEnds at 1. cbn [fst snd].
    destruct (is_finite a && is_finite b); cbn; rewrite IH by lia; reflexivity. }
  exact (H (length numbers) numbers (le_n _)).
Qed.

Lemma fromEntry_numbers (coerce : Js.Value -> float) (numbers : list float) :
  flat_map (fromEntry coerce) (map Js.Number numbers) = [].
Proof. induction numbers as [|a l IH]; cbn; auto. Qed.

Lemma fromEntry_connections (coerce : Js.Value -> float) (ps : list (float * float)) :
  flat_map (fromEntry coerce) (map (fun p => connection (fst p) (snd p)) ps) =
  map (fun p => connector (fst p) (snd p)) (filter finiteEnds ps).
Proof.
  induction ps as [|[a b] ps IH]; [reflexivity|].
  cbn [map flat_map filter fst snd]. rewrite IH. unfold finiteEnds at 2. cbn.
  destruct (is_finite a && is_finite b); reflexivity.
Qed.

(** X13. [normalizeConnectorList] turns the connector formats into pairs,
    in order: an array of [{start, end}] objects gives one pair per object
    with finite ends; a typed array, or a plain array of numbers, is read
    two numbers at a time, a pair with a non-finite number and a last odd
    number being dropped. A falsy value gives the empty list. *)
Theorem connector_formats_become_pairs :
  (forall coerce ps,
      filter finiteEnds ps <> [] ->
      normalizeConnectorList coerce
        (Js.Array (map (fun p => connection (fst p) (snd p)) ps)) =
      Some (map (fun p => connector (fst p) (snd p)) (filter finiteEnds ps))) /\
  (forall coerce numbers,
      normalizeConnectorList coerce (Js.Typed numbers) =
      Some (map (fun p => connector (fst p) (snd p)) (filter finiteEnds (pairUp numbers)))) /\
  (forall coerce numbers,
      normalizeConnectorList coerce (Js.Array (map Js.Number numbers)) =
      Some (map (fun p => connector (fst p) (snd p)) (filter finiteEnds (pairUp numbers)))) /\
  (forall coerce v, Js.truthy v = false -> normalizeConnectorList coerce v = Some []).
Proof.
  split; [|split; [|split]].
  - intros coerce ps Hne. unfold normalizeConnectorList. cbn [Js.truthy negb].
    replace (match map (fun p => connection (fst p) (snd p)) ps with
             | first :: _ => isPairArray coerce first
             | [] => false
             end) with false by (destruct ps as [|[a b] ps]; reflexivity).
    rewrite fromEntry_connections.
    destruct (map (fun p => connector (fst p) (snd p)) (filter finiteEnds ps)) eqn:E;
      [|reflexivity].
    apply map_eq_nil in E. contradiction.
  - intros coerce numbers. unfold normalizeConnectorList. cbn [Js.truthy negb].
    now rewrite fromFlat_numbers.
  - intros coerce numbers. unfold normalizeConnectorList. cbn [Js.truthy negb].
    replace (match map Js.Number numbers with
             | first :: _ => isPairArray coerce first
             | [] => false
             end) with false by (destruct numbers; reflexivity).
    now rewrite fromEntry_numbers, fromFlat_numbers.
  - intros coerce v H. unfold normalizeConnectorList. now rewrite H.
Qed.

Lemma connector_formats_become_pairs_witness :
  normalizeConnectorList (fun _ => nan)
    (Js.Array [connection 0 1; connection nan 2; connection 1 2]) =
  Some [connector 0 1; connector 1 2] /\
  normalizeConnectorList (fun _ => nan) (Js.Text EmptyString) = Some [].
Proof.
  destruct connector_formats_become_pairs as (H1 & _ & _ & H4). split.
  - apply (H1 (fun _ => nan) [(0, 1); (nan, 2); (1, 2)]%float).
    vm_compute. discriminate.
  - apply H4. reflexivity.
Defined.

(** ** Analysis requests *)

Local Open Scope Z_scope.

Section ApiFacts.
Import SkinAnalysisApi.

Lemma lookup_setField (key k : string) (v : Js.Value) (fields : list (string * Js.Value)) :
  Js.lookup k (setField key v fields) =
  if String.eqb key k then Some v else Js.lookup k fields.
Proof.
  induction fields as [|[k0 x] rest IH]; cbn.
  - reflexivity.
  - destruct (String.eqb_spec k0 key) as [->|Hne]; cbn.
    + destruct (String.eqb_spec key k); reflexivity.
    + rewrite IH. destruct (String.eqb_spec k0 k) as [->|Hne'].
      * destruct (String.eqb_spec key k); [congruence | reflexivity].
      * reflexivity.
Qed.

Lemma lookup_spread (k : string) (fs base : list (string * Js.Value)) :
  Js.lookup k (fold_left (fun o kv => setField (fst kv) (snd kv) o) fs base) =
  match Js.lookup k (rev fs) with
  | Some v => Some v
  | None => Js.lookup k base
  end.
Proof.
  revert base. induction fs as [|[k0 v0] fs IH]; intros base; [reflexivity|].
  cbn [fold_left rev fst snd]. rewrite IH, lookup_setField.
  assert (A : forall l1 l2, Js.lookup k (l1 ++ l2) =
                match Js.lookup k l1 with Some v => Some v | None => Js.lookup k l2 end).
  { induction l1 as [|[a b] l1 IH1]; intros l2; cbn; [reflexivity|].
    destruct (String.eqb a k); [reflexivity | apply IH1]. }
  rewrite A. cbn. destruct (Js.lookup k (rev fs)); [reflexivity|].
  destruct (String.eqb k0 k); reflexivity.
Qed.

Lemma lookup_In (k : string) (fs : list (string * Js.Value)) (v : Js.Value) :
  Js.lookup k fs = Some v -> In k (map fst fs).
Proof.
  induction fs as [|[a b] fs IH]; cbn; [discriminate|].
  destruct (String.eqb_spec a k); [now left | right; now apply IH].
Qed.

Lemma lookup_rev (k : string) (fs : list (string * Js.Value)) :
  NoDup (map fst fs) -> Js.lookup k (rev fs) = Js.lookup k fs.
Proof.
  assert (A : forall l1 l2, Js.lookup k (l1 ++ l2) =
                match Js.lookup k l1 with Some v => Some v | None => Js.lookup k l2 end).
  { induction l1 as [|[a b] l1 IH1]; intros l2; cbn; [reflexivity|].
    destruct (String.eqb a k); [reflexivity | apply IH1]. }
  induction fs as [|[a b] fs IH]; intros N; [reflexivity|].
  cbn [map fst] in N. inversion N as [|? ? Hnot N']; subst.
  cbn [rev Js.lookup]. rewrite A, (IH N'). cbn.
  destruct (String.eqb_spec a k) as [->|Hne].
  - destruct (Js.lookup k fs) as [v|] eqn:E; [|reflexivity].
    elim Hnot. now apply (lookup_In k fs v).
  - now destruct (Js.lookup k fs).
Qed.

Lemma field_spread (k : string) (data : Js.Value) :
  NoDup (map fst (ownFields data)) ->
  Js.lookup k (spreadOver [("success", Js.Bool true)] data) =
  match Js.lookup k (ownFields data) with
  | Some v => Some v
  | None => if String.eqb "success" k then Some (Js.Bool true) else None
  end.
Proof.
  intros N. unfold spreadOver. rewrite lookup_spread, (lookup_rev k _ N). reflexivity.
Qed.


End ApiFacts.

(** X14. [analyzeSkinImage] throws exactly when no endpoint is configured.
    With one, it always resolves: to [{success: false, error}] when the
    request fails, the status is not ok or the body cannot be parsed, and
    otherwise to the parsed body with [success: true] added only if the
    body has no [success] of its own; a body with its own [success] keeps
    it, so a 2xx answer saying [success: false] comes out as a failure. *)
Theorem analyzeSkinImage_resolves_with_the_bodys_success :
  (forall env fetched,
      (exists t, SkinAnalysisApi.analyzeSkinImage env fetched = inl t) <->
      SkinAnalysisApi.BACKEND_ENDPOINT env = EmptyString) /\
  (forall env status data,
      SkinAnalysisApi.BACKEND_ENDPOINT env <> EmptyString ->
      NoDup (map fst (SkinAnalysisApi.ownFields data)) ->
      exists response,
        SkinAnalysisApi.analyzeSkinImage env
          (SkinAnalysisApi.Responds true status (SkinAnalysisApi.BodyIs data)) =
        inr response /\
        Js.truthy (SkinAnalysisApi.field "success" response) = bodySucceeds data /\
        forall key v,
          Js.lookup key (SkinAnalysisApi.ownFields data) = Some v ->
          SkinAnalysisApi.field key response = v) /\
  (forall env fetched,
      SkinAnalysisApi.BACKEND_ENDPOINT env <> EmptyString ->
      (forall status data,
          fetched <> SkinAnalysisApi.Responds true status (SkinAnalysisApi.BodyIs data)) ->
      exists message,
        SkinAnalysisApi.analyzeSkinImage env fetched =
        inr [("success", Js.Bool false); ("error", Js.Text message)]).
Proof.
  split; [|split].
  - intros env fetched. unfold SkinAnalysisApi.analyzeSkinImage.
    destruct (String.eqb_spec (SkinAnalysisApi.BACKEND_ENDPOINT env) EmptyString) as [E|E].
    + split; [auto | eauto].
    + split; [|contradiction]. intros [t H].
      destruct fetched as [t'|ok status [t'|data]]; try destruct ok; discriminate.
  - intros env status data E N. unfold SkinAnalysisApi.analyzeSkinImage.
    destruct (String.eqb_spec (SkinAnalysisApi.BACKEND_ENDPOINT env) EmptyString);
      [contradiction|].
    cbn [negb]. eexists. split; [reflexivity|]. split.
    + unfold SkinAnalysisApi.field, bodySucceeds. rewrite (field_spread _ data N).
      destruct (Js.lookup "success" (SkinAnalysisApi.ownFields data)); reflexivity.
    + intros key v H. unfold SkinAnalysisApi.field.
      now rewrite (field_spread _ data N), H.
  - intros env fetched E H. unfold SkinAnalysisApi.analyzeSkinImage, SkinAnalysisApi.failed.
    destruct (String.eqb_spec (SkinAnalysisApi.BACKEND_ENDPOINT env) EmptyString);
      [contradiction|].
    destruct fetched as [t|[|] status [t|data]]; cbn [negb]; eauto.
    elim (H status data). reflexivity.
Qed.

Lemma analyzeSkinImage_resolves_with_the_bodys_success_witness :
  exists response,
    SkinAnalysisApi.analyzeSkinImage (Some "http://localhost:4000")
      (SkinAnalysisApi.Responds true 200
         (SkinAnalysisApi.BodyIs
            (Js.Object [("success", Js.Bool false); ("error", Js.Text "no face")]))) =
    inr response /\
    Js.truthy (SkinAnalysisApi.field "success" response) =
    bodySucceeds (Js.Object [("success", Js.Bool false); ("error", Js.Text "no face")]) /\
    forall key v,
      Js.lookup key [("success", Js.Bool false); ("error", Js.Text "no face")] = Some v ->
      SkinAnalysisApi.field key response = v.
Proof.
  destruct analyzeSkinImage_resolves_with_the_bodys_success as (_ & H & _).
  apply (H (Some "http://localhost:4000") 200
           (Js.Object [("success", Js.Bool false); ("error", Js.Text "no face")])).
  - vm_compute. discriminate.
  - cbn. repeat constructor; cbn; intuition discriminate.
Defined.



(** ** File names of captures *)

Section FileNameFacts.
Import FileName.

Lemma allChars_append (p : Ascii.ascii -> bool) (s t : string) :
  allChars p (String.append s t) = allChars p s && allChars p t.
Proof.
  induction s as [|c s IH]; cbn; [reflexivity|]. now rewrite IH, andb_assoc.
Qed.

Lemma allChars_substring (p : Ascii.ascii -> bool) (s : string) (n m : nat) :
  allChars p s = true -> allChars p (String.substring n m s) = true.
Proof.
  revert n m. induction s as [|c s IH]; intros n m H.
  - destruct n, m; reflexivity.
  - cbn in H. apply andb_true_iff in H. destruct H as [Hc Hs].
    destruct n as [|n]; cbn.
    + destruct m as [|m]; cbn; [reflexivity|]. now rewrite Hc, IH.
    + now apply IH.
Qed.

Lemma length_substring_le (s : string) (n m : nat) :
  (String.length (String.substring n m s) <= m)%nat.
Proof.
  revert n m. induction s as [|c s IH]; intros n m.
  - destruct n, m; cbn; lia.
  - destruct n as [|n]; cbn.
    + destruct m as [|m]; cbn; [lia|]. specialize (IH 0%nat m). lia.
    + apply IH.
Qed.

Lemma length_append (s t : string) :
  String.length (String.append s t) = (String.length s + String.length t)%nat.
Proof. induction s as [|c s IH]; cbn; [reflexivity|]. now rewrite IH. Qed.

Lemma length_replaceAll (hit : Ascii.ascii -> bool) (sub : Ascii.ascii) (s : string) :
  String.length (replaceAll hit sub s) = String.length s.
Proof. induction s as [|c s IH]; cbn; [reflexivity|]. now rewrite IH. Qed.

Lemma isoChar_replaced (c : Ascii.ascii) :
  isoChar c = true -> plainChar (if isColonOrDot c then "-"%char else c) = true.
Proof.
  destruct c as [[] [] [] [] [] [] [] []]; vm_compute; intros H;
    first [reflexivity | discriminate].
Qed.

Lemma base36Char_plain (c : Ascii.ascii) : base36Char c = true -> plainChar c = true.
Proof.
  destruct c as [[] [] [] [] [] [] [] []]; vm_compute; intros H;
    first [reflexivity | discriminate].
Qed.

Lemma allChars_impl (p q : Ascii.ascii -> bool) (s : string) :
  (forall c, p c = true -> q c = true) -> allChars p s = true -> allChars q s = true.
Proof.
  intros I. induction s as [|c s IH]; cbn; [reflexivity|].
  rewrite !andb_true_iff. intros [Hc Hs]. auto.
Qed.

Lemma replaceAll_plain (s : string) :
  allChars isoChar s = true -> allChars plainChar (replaceAll isColonOrDot "-"%char s) = true.
Proof.
  induction s as [|c s IH]; cbn; [reflexivity|].
  rewrite !andb_true_iff. intros [Hc Hs]. split; [now apply isoChar_replaced | auto].
Qed.

End FileNameFacts.

(** X16. The name given to a capture is a single plain path segment:
    [face-capture-], then a stem made only of letters, digits, hyphens and
    plus signs, then [.png]. The stem is the time stamp with its colons
    and dot replaced, a hyphen, and at most seven base-36 digits; so the
    name is never empty and its only dot is the one of the extension. *)
Theorem capture_filename_is_plain :
  forall isoString random36 digits,
    FileName.allChars FileName.isoChar isoString = true ->
    FileName.allChars FileName.base36Char digits = true ->
    random36 = "0" \/ random36 = String.append "0." digits ->
    exists stem,
      FileName.generateImageFilename isoString random36 =
        String.append "face-capture-" (String.append stem ".png") /\
      FileName.allChars FileName.plainChar stem = true /\
      (String.length isoString + 1 <= String.length stem <= String.length isoString + 8)%nat /\
      FileName.countChar "."%char (FileName.generateImageFilename isoString random36) = 1%nat.
Proof.
  intros isoString random36 digits Hiso Hdig Hrnd.
  set (id := String.substring 2 7 random36).
  assert (Hid : FileName.allChars FileName.plainChar id = true).
  { unfold id. destruct Hrnd as [->| ->]; [reflexivity|].
    cbn [String.append String.substring].
    apply allChars_substring.
    now apply (allChars_impl FileName.base36Char _ _ base36Char_plain). }
  assert (Hlen : (String.length id <= 7)%nat) by apply length_substring_le.
  exists (String.append (FileName.replaceAll FileName.isColonOrDot "-"%char isoString)
            (String.append "-" id)).
  assert (Hstem : FileName.allChars FileName.plainChar
                    (String.append (FileName.replaceAll FileName.isColonOrDot "-"%char isoString)
                       (String.append "-" id)) = true).
  { rewrite allChars_append, replaceAll_plain by exact Hiso. cbn. exact Hid. }
  split; [|split; [exact Hstem|split]].
  - unfold FileName.generateImageFilename. fold id.
    assert (A : forall a b c, String.append (String.append a b) c =
                              String.append a (String.append b c)).
    { induction a as [|x a IH]; intros b c; cbn; [reflexivity|]. now rewrite IH. }
    now rewrite !A.
  - rewrite length_append, length_replaceAll, length_append. cbn [String.length]. lia.
  - unfold FileName.generateImageFilename. fold id.
    assert (C : forall s t, FileName.countChar "."%char (String.append s t) =
                            (FileName.countChar "."%char s + FileName.countChar "."%char t)%nat).
    { induction s as [|x s IH]; intros t; cbn; [reflexivity|]. rewrite IH. lia. }
    assert (Z0 : forall s, FileName.allChars FileName.plainChar s = true ->
                           FileName.countChar "."%char s = 0%nat).
    { induction s as [|x s IH]; cbn; [reflexivity|].
      rewrite andb_true_iff. intros [Hx Hs]. rewrite (IH Hs).
      destruct x as [[] [] [] [] [] [] [] []]; vm_compute in Hx |- *;
        first [reflexivity | discriminate]. }
    rewrite allChars_append in Hstem. apply andb_true_iff in Hstem.
    destruct Hstem as [H1 H2]. cbn in H2.
    rewrite !C, (Z0 _ H1), (Z0 _ Hid). reflexivity.
Qed.

Lemma capture_filename_is_plain_witness :
  exists stem,
    FileName.generateImageFilename "2025-11-02T06:14:00.123Z" "0.k3j9x0a2b7" =
      String.append "face-capture-" (String.append stem ".png") /\
    FileName.allChars FileName.plainChar stem = true /\
    (String.length "2025-11-02T06:14:00.123Z" + 1 <= String.length stem
     <= String.length "2025-11-02T06:14:00.123Z" + 8)%nat /\
    FileName.countChar "."%char
      (FileName.generateImageFilename "2025-11-02T06:14:00.123Z" "0.k3j9x0a2b7") = 1%nat.
Proof.
  apply (capture_filename_is_plain "2025-11-02T06:14:00.123Z" "0.k3j9x0a2b7" "k3j9x0a2b7").
  - vm_compute; reflexivity.
  - vm_compute; reflexivity.
  - right. reflexivity.
Defined.
